(** * librelay-node: the message receiver and its event target

    A shallow embedding of [src/event_target.js] and
    [src/message_receiver.js], and the properties of the receiver's
    reception pipeline: padding removal, listener dispatch, envelope
    classification, the error taxonomy of [handleEnvelope], the
    sync-message dispatch and the transport ACK discipline of
    [handleRequest].

    Conventions.  An [async] function is a computation in the monad [M]
    below: it threads the state of the outside world, the listener
    registry and a trace of observable effects, and ends by returning or by
    throwing.  Every [await] runs its operand to completion, which is the
    order the receiver's serial queue imposes on one connection.  The
    modules that are not part of the receiver ([crypto], [protobufs],
    [errors], [storage], [libsignal], the service client) are the fields
    of [Externals]; each may fail with any error.  The calls given to one
    [Promise.all] are started in list order and take effect in that order;
    which of their rejections comes first in time is the outside world's
    choice, a field of [Externals] too.  The socket life cycle
    ([connect], [close], [onSocketClose]), [drain] and [tryMessageAgain]
    are outside the properties below and are not embedded. *)

From Stdlib Require Import ZArith.
From Stdlib.Strings Require Import Byte.
From stdpp Require Import base option list strings gmap.

Local Open Scope Z_scope.

(** ** JavaScript values used by the receiver *)

(** A [Buffer] / [Uint8Array]. *)
Abbreviation bytes := (list byte).

(** An exception value.  The receiver inspects an error through its [name]
    and [message] properties, through [instanceof] against the two classes
    of [errors.js], and through the [addr] and [identityKey] properties
    carried by an identity-key error. *)
Record JSError := mkJSError {
  err_name : string;
  err_message : string;
  err_isIncomingIdentityKeyError : bool;
  err_isTextSecureError : bool;
  err_addr : option string;
  err_identityKey : option bytes
}.

(** [new Error(msg)], [new TypeError(msg)], [new ReferenceError(msg)]. *)
Definition Error (msg : string) : JSError :=
  mkJSError "Error" msg false false None None.
Definition TypeError (msg : string) : JSError :=
  mkJSError "TypeError" msg false false None None.
Definition ReferenceError (msg : string) : JSError :=
  mkJSError "ReferenceError" msg false false None None.

(** The outcome of a synchronous call: a thrown error or a value. *)
Abbreviation Completion A := (JSError + A)%type.

(** ** [unpad] (message_receiver.js) *)

(** The loop [for (let i = buf.byteLength - 1; i >= 0; i--)]: [n] is [i + 1].
    A byte that is neither [0x80] nor [0x00] throws; running off the front
    of the buffer returns [buf] itself. *)
Fixpoint unpad_from (buf : bytes) (n : nat) : Completion bytes :=
  match n with
  | O => inr buf
  | S i =>
      match buf !! i with
      | Some x80 => inr (take i buf)
      | Some x00 => unpad_from buf i
      | _ => inl (Error "Invalid padding")
      end
  end.

Definition unpad (buf : bytes) : Completion bytes :=
  unpad_from buf (length buf).

(** The error kind the specification calls [PaddingError]. *)
Definition PaddingError : JSError := Error "Invalid padding".

(** ** 64-bit integers (long.js) *)

(** [Long.prototype.toNumber()]: the value of a 64-bit integer field as a
    JavaScript number.  The library computes [high * 2^32 + low] in double
    arithmetic: both terms are exact and their sum is rounded once, to 53
    significant bits, ties to even.  [e] is the number of low bits a double
    cannot hold; an integer of magnitude below [2^53] is its own value. *)
Definition toNumber (z : Z) : Z :=
  let a := Z.abs z in
  let e := Z.log2 a - 52 in
  if decide (e ≤ 0) then z
  else
    let q := a / 2 ^ e in
    let r := a mod 2 ^ e in
    let half := 2 ^ (e - 1) in
    let q' :=
      if decide (r < half) then q
      else if decide (half < r) then q + 1
      else if Z.even q then q else q + 1 in
    Z.sgn z * (q' * 2 ^ e).

(** ** Wire records (protobufs.js) *)

(** Modelled from the spec: the [Envelope.Type] enumeration of the protobuf
    schema, which the receiver reads through [ENV_TYPES]; any other numeric
    value is [OTHER_TYPE]. *)
Inductive EnvelopeType :=
  | CIPHERTEXT
  | PREKEY_BUNDLE
  | RECEIPT
  | UNIDENTIFIED_SENDER
  | OTHER_TYPE (n : Z).

(** The fields of a decoded [Envelope] message; [wire_timestamp] is the
    value of the 64-bit field as decoded. *)
Record WireEnvelope := mkWireEnvelope {
  wire_type : EnvelopeType;
  wire_source : string;
  wire_sourceDevice : Z;
  wire_timestamp : Z;
  wire_content : option bytes;
  wire_legacyMessage : option bytes
}.

(** The envelope object the receiver passes around.  [env_content] and
    [env_legacyMessage] are [None] when the property is falsy.  The
    property [keyChange] is no field of the wire message: it is [None]
    (undefined) until [handleEnvelope] assigns [true] to it. *)
Record Envelope := mkEnvelope {
  env_type : EnvelopeType;
  env_source : string;
  env_sourceDevice : Z;
  env_timestamp : Z;
  env_content : option bytes;
  env_legacyMessage : option bytes;
  env_keyChange : option bool
}.

(** The envelope after [envelope.timestamp = envelope.timestamp.toNumber()]. *)
Definition envelope_of_wire (w : WireEnvelope) : Envelope :=
  mkEnvelope (wire_type w) (wire_source w) (wire_sourceDevice w)
             (toNumber (wire_timestamp w)) (wire_content w)
             (wire_legacyMessage w) None.

(** [envelope.keyChange = v]. *)
Definition set_keyChange (v : bool) (e : Envelope) : Envelope :=
  mkEnvelope (env_type e) (env_source e) (env_sourceDevice e)
             (env_timestamp e) (env_content e) (env_legacyMessage e) (Some v).

Record Attachment := mkAttachment {
  att_id : Z;
  att_key : bytes;
  att_data : option bytes
}.

(** A decoded [DataMessage]; [None] is [null].  [dm_group] only records
    whether the field is present. *)
Record DataMessage := mkDataMessage {
  dm_body : option string;
  dm_flags : option Z;
  dm_expireTimer : option Z;
  dm_group : bool;
  dm_attachments : option (list Attachment)
}.

(** A decoded [SyncMessage.Sent].  [sent_timestamp] and [sent_expire] are
    the values of the 64-bit fields as decoded, before any [toNumber()];
    [None] is [null]. *)
Record Sent := mkSent {
  sent_destination : string;
  sent_timestamp : Z;
  sent_message : option DataMessage;
  sent_expire : option Z
}.

(** A decoded [SyncMessage.Read]; [read_timestamp] is the value of the
    64-bit field as decoded. *)
Record Read := mkRead {
  read_timestamp : Z;
  read_sender : string
}.

(** A decoded [SyncMessage].  The variants the receiver does not look into
    are kept as opaque payloads; [None] is a falsy (absent) field. *)
Record SyncMessage := mkSyncMessage {
  sync_sent : option Sent;
  sync_read : option (list Read);
  sync_contacts : option bytes;
  sync_groups : option bytes;
  sync_blocked : option bytes;
  sync_request : option bytes
}.

Record Content := mkContent {
  content_syncMessage : option SyncMessage;
  content_dataMessage : option DataMessage
}.

(** ** Events (event.js) *)

(** [ev.data] of a [message] event. *)
Record MessageData := mkMessageData {
  md_timestamp : Z;
  md_source : string;
  md_sourceDevice : Z;
  md_message : DataMessage;
  md_keyChange : option bool
}.

(** [ev.data] of a [sent] event. *)
Record SentData := mkSentData {
  sd_source : string;
  sd_sourceDevice : Z;
  sd_timestamp : Z;
  sd_destination : string;
  sd_message : DataMessage;
  sd_expirationStartTimestamp : option Z
}.

(** [ev.read] of a [read] event. *)
Record ReadData := mkReadData {
  rd_timestamp : Z;
  rd_sender : string;
  rd_source : string;
  rd_sourceDevice : Z
}.

(** The properties the receiver assigns to an event after [new Event(type)]. *)
Inductive EventFields :=
  | ErrorFields (error : JSError) (proto : option Envelope)
  | KeychangeFields (addr : option string) (identityKey : option bytes)
  | ReceiptFields (proto : Envelope)
  | MessageFields (data : MessageData)
  | SentFields (data : SentData)
  | ReadFields (timestamp : Z) (read : ReadData).

(** An [Event].  [ev_accepted] is the truthiness of the property
    [accepted], which a listener may set and [handleEnvelope] tests. *)
Record Event := mkEvent {
  ev_type : string;
  ev_fields : EventFields;
  ev_accepted : bool
}.

Definition new_Event (type : string) (fields : EventFields) : Event :=
  mkEvent type fields false.

(** ** Observable effects *)

(** What a run leaves behind, in order: the calls of [request.respond], the
    calls of [dispatchEvent], the console output, and the activations of
    [handleEnvelope] with the value of their [reentrant] argument. *)
Inductive Effect :=
  | ERespond (status : Z) (reason : string)
  | EDispatch (ev : Event)
  | EConsole (level : string) (msg : string)
  | EHandleEnvelope (envelope : Envelope) (reentrant : bool).

Definition is_respond (e : Effect) : bool :=
  match e with ERespond _ _ => true | _ => false end.
Definition is_dispatch (e : Effect) : bool :=
  match e with EDispatch _ => true | _ => false end.
Definition is_dispatch_of (type : string) (e : Effect) : bool :=
  match e with
  | EDispatch ev => bool_decide (ev_type ev = type)
  | _ => false
  end.
Definition is_reentry (e : Effect) : bool :=
  match e with EHandleEnvelope _ true => true | _ => false end.

(** The [respond] calls, and the dispatched events, of a trace. *)
Definition responses (t : list Effect) : list Effect := filter is_respond t.
Definition dispatched (t : list Effect) : list Effect := filter is_dispatch t.
Definition dispatched_of (type : string) (t : list Effect) : list Effect :=
  filter (is_dispatch_of type) t.
Definition reentries (t : list Effect) : list Effect := filter is_reentry t.

(** ** JavaScript arithmetic *)

(** [ToInt32], and the operator [&] on integers; [null] converts to 0. *)
Definition toInt32 (z : Z) : Z :=
  let m := z mod 2 ^ 32 in
  if decide (2 ^ 31 ≤ m) then m - 2 ^ 32 else m.

Definition js_band (a : option Z) (b : Z) : Z :=
  Z.land (toInt32 (default 0 a)) (toInt32 b).

(** Truthiness of a number, and of a property that is an object or absent. *)
Definition truthy (z : Z) : bool := negb (bool_decide (z = 0)).
Definition present {A} (o : option A) : bool :=
  match o with Some _ => true | None => false end.

Section Receiver.

(** ** The collaborators *)

(** The state of everything outside the receiver: the Signal session store,
    the persistent state store and the remote service. *)
Context {World : Type}.

(** A call into a collaborator: it may change the world, and throws or
    returns. *)
Definition Call (A : Type) : Type := World → Completion A * World.

(** The modules the receiver requires and that are not part of it:
    [crypto.js], [protobufs.js], [errors.js], [storage] and [libsignal].
    Ciphertexts are passed as the (possibly undefined) envelope property. *)
Record Externals := mkExternals {
  (** [crypto.decryptWebsocketMessage(body, signalingKey)] *)
  decryptWebsocketMessage : bytes → bytes → Completion bytes;
  (** [protobufs.Envelope.decode(data)] *)
  Envelope_decode : bytes → Completion WireEnvelope;
  (** [protobufs.Content.decode(data)] *)
  Content_decode : bytes → Completion Content;
  (** [protobufs.DataMessage.decode(data)] *)
  DataMessage_decode : bytes → Completion DataMessage;
  (** [DATA_FLAGS.END_SESSION] *)
  END_SESSION : Z;
  (** [new SignalProtocolAddress(name, deviceId).toString()] *)
  addressToString : string → Z → string;
  (** [sessionCipher.decryptWhisperMessage(ciphertext)] for an address *)
  decryptWhisperMessage : string → Z → option bytes → Call bytes;
  (** [sessionCipher.decryptPreKeyWhisperMessage(ciphertext)] *)
  sessionDecryptPreKeyWhisperMessage : string → Z → option bytes → Call bytes;
  (** [storage.getDeviceIds(addr)] *)
  getDeviceIds : string → Call (list Z);
  (** [sessionCipher.closeOpenSessionForDevice()] for an address *)
  closeOpenSessionForDevice : string → Z → Call unit;
  (** [tss.getAttachment(id.toString())] *)
  getAttachment : Z → Call bytes;
  (** [crypto.decryptAttachment(encrypted, key)] *)
  decryptAttachment : bytes → bytes → Call bytes;
  (** the [name] and [message] of an [errors.IncomingIdentityKeyError], and
      whether that class extends [errors.TextSecureError] *)
  IncomingIdentityKeyError_name : string;
  IncomingIdentityKeyError_message : string;
  IncomingIdentityKeyError_isTextSecureError : bool;
  (** the scheduling of the outside world: which of the rejections of the
      promises given to one [Promise.all] comes first in time, as an index
      into their list (taken modulo its length) *)
  settles_first : World → list JSError → nat
}.

(** A registered callback.  [l_id] stands for the identity of the function
    object, which [removeEventListener] compares; calling it may change the
    event it is given and the world, and it may throw.  A callback that
    registers or removes listeners on the receiver, or calls back into it,
    is outside this model. *)
Record Listener := mkListener {
  l_id : nat;
  l_call : Event → World → Completion unit * Event * World
}.

(** ** State and the receiver's monad *)

(** [st_listeners] is the property [_listeners] of the event target:
    [None] while it is undefined, else the object mapping event names to
    callback arrays. *)
Record State := mkState {
  st_world : World;
  st_listeners : option (gmap string (list Listener));
  st_trace : list Effect
}.

Definition M (A : Type) : Type := State → Completion A * State.

Definition ret {A} (a : A) : M A := λ st, (inr a, st).
Definition throw {A} (e : JSError) : M A := λ st, (inl e, st).
Definition bind {A B} (m : M A) (k : A → M B) : M B :=
  λ st, match m st with
        | (inr a, st') => k a st'
        | (inl e, st') => (inl e, st')
        end.

(** [try { m } catch (e) { h e }] *)
Definition try_catch {A} (m : M A) (h : JSError → M A) : M A :=
  λ st, match m st with
        | (inr a, st') => (inr a, st')
        | (inl e, st') => h e st'
        end.

(** [try { m } finally { fin }] *)
Definition try_finally {A} (m : M A) (fin : M unit) : M A :=
  λ st, match m st with
        | (r, st') =>
            match fin st' with
            | (inr _, st'') => (r, st'')
            | (inl e, st'') => (inl e, st'')
            end
        end.

(** Lifting of a pure completion and of a collaborator call. *)
Definition lift {A} (c : Completion A) : M A := λ st, (c, st).
Definition call {A} (c : Call A) : M A :=
  λ st, match c (st_world st) with
        | (r, w) => (r, mkState w (st_listeners st) (st_trace st))
        end.

(** Appends one effect to the trace. *)
Definition emit (e : Effect) : M unit :=
  λ st, (inr tt, mkState (st_world st) (st_listeners st) (st_trace st ++ [e])).

Definition console (level msg : string) : M unit := emit (EConsole level msg).

End Receiver.

Arguments Externals : clear implicits.
Arguments Listener : clear implicits.
Arguments State : clear implicits.
Arguments M : clear implicits.

Declare Scope js_scope.
Delimit Scope js_scope with js.
Notation "x <- m ;; k" := (bind m (λ x, k))
  (at level 100, m at next level, right associativity) : js_scope.
Notation "m ;;; k" := (bind m (λ _, k))
  (at level 100, right associativity) : js_scope.
Local Open Scope js_scope.

(** ** The event target (event_target.js) *)

Module EventTarget.
Section EventTarget.
Context {World : Type}.

Abbreviation M := (M World).
Abbreviation Listener := (Listener World).

(** The property names every object literal inherits from
    [Object.prototype]: looked up in [this._listeners], they yield a
    function (an object for [__proto__]) instead of [undefined]. *)
Definition object_prototype_names : list string :=
  [ "constructor"; "__defineGetter__"; "__defineSetter__"; "hasOwnProperty";
    "__lookupGetter__"; "__lookupSetter__"; "isPrototypeOf";
    "propertyIsEnumerable"; "toString"; "valueOf"; "__proto__";
    "toLocaleString" ].

Definition inherited (name : string) : bool :=
  bool_decide (name ∈ object_prototype_names).

(** The error of [for (const callback of undefined)], and of iterating an
    inherited function; the message text is the engine's. *)
Definition not_iterable : JSError :=
  TypeError "this._listeners[ev.type] is not iterable".

(** The body of the loop of [dispatchEvent]: the callbacks are awaited one
    after the other on the same event object; an exception of a callback is
    logged and dropped. *)
Fixpoint call_listeners (callbacks : list Listener) (ev : Event) : M Event :=
  match callbacks with
  | [] => ret ev
  | callback :: rest =>
      λ st,
        match l_call callback ev (st_world st) with
        | (r, ev', w) =>
            let st' := mkState w (st_listeners st) (st_trace st) in
            match r with
            | inr _ => call_listeners rest ev' st'
            | inl _ =>
                (console "error" "Event Listener Exception" ;;;
                 call_listeners rest ev') st'
            end
        end
  end.

(** [dispatchEvent(ev)].  The argument is an [Event] by its type, so the
    [instanceof] guard passes.  The result is the event object as the
    listeners left it. *)
Definition dispatchEvent (ev : Event) : M Event :=
  emit (EDispatch ev) ;;;
  λ st,
    match st_listeners st with
    | None => ret ev st
    | Some listeners =>
        match listeners !! ev_type ev with
        | Some callbacks => call_listeners callbacks ev st
        | None => throw not_iterable st
        end
    end.

Definition set_listeners (l : gmap string (list Listener)) : M unit :=
  λ st, (inr tt, mkState (st_world st) (Some l) (st_trace st)).

(** [addEventListener(eventName, callback)]; both arguments have the
    expected type.  An inherited name is truthy in [this._listeners] and
    has no [push]. *)
Definition addEventListener (eventName : string) (callback : Listener) : M unit :=
  λ st,
    let listeners := default ∅ (st_listeners st) in
    match listeners !! eventName with
    | None =>
        if inherited eventName then
          (set_listeners listeners ;;;
           throw (TypeError "this._listeners[eventName].push is not a function")) st
        else set_listeners (<[eventName := [callback]]> listeners) st
    | Some callbacks =>
        set_listeners (<[eventName := callbacks ++ [callback]]> listeners) st
    end.

(** [removeEventListener(eventName, callback)]. *)
Definition removeEventListener (eventName : string) (callback : Listener) : M unit :=
  λ st,
    match st_listeners st with
    | None => throw (TypeError "Cannot read properties of undefined") st
    | Some listeners =>
        match listeners !! eventName with
        | None =>
            if inherited eventName then
              throw (TypeError "this._listeners[eventName].filter is not a function") st
            else ret tt st
        | Some callbacks =>
            set_listeners
              (<[eventName :=
                   filter (λ x, l_id x ≠ l_id callback) callbacks]> listeners) st
        end
    end.

End EventTarget.
End EventTarget.

(** ** The message receiver (message_receiver.js) *)

(** The constructor arguments kept on the receiver. *)
Record Identity := mkIdentity {
  addr : string;
  deviceId : Z;
  signalingKey : bytes
}.

(** An incoming request of the websocket resource; [respond] is recorded in
    the trace. *)
Record Request := mkRequest {
  req_verb : string;
  req_path : string;
  req_body : bytes
}.

Module MessageReceiver.

(** [class MessageReceiver extends EventTarget] *)
Abbreviation dispatchEvent := EventTarget.dispatchEvent.

Section MessageReceiver.
Context {World : Type} (ext : Externals World) (this : Identity).

Abbreviation M := (M World).

(** [request.respond(status, reason)] *)
Definition respond (status : Z) (reason : string) : M unit :=
  emit (ERespond status reason).

(** [xs.map(f)]: every call is started, in the order of the list, and the
    started calls take effect on the outside world in that order.  The
    result holds the outcome of each promise, in the order of the list. *)
Fixpoint start_all {A B} (f : A → M B) (xs : list A) (st : State World)
    : list (Completion B) * State World :=
  match xs with
  | [] => ([], st)
  | x :: rest =>
      match f x st with
      | (r, st') =>
          match start_all f rest st' with
          | (rs, st'') => (r :: rs, st'')
          end
      end
  end.

(** The rejections, and the values, among the outcomes of a list of
    promises. *)
Definition rejections {B} (rs : list (Completion B)) : list JSError :=
  omap (λ r, match r with inl e => Some e | inr _ => None end) rs.
Definition fulfilments {B} (rs : list (Completion B)) : list B :=
  omap (λ r, match r with inr b => Some b | inl _ => None end) rs.

(** [await Promise.all(xs.map(f))]: the list of the values when every
    promise is fulfilled; else the rejection that comes first in time,
    which need not be the one of the earliest element of the list: the
    outside world chooses it ([settles_first]). *)
Definition promise_all {A B} (f : A → M B) (xs : list A) : M (list B) :=
  λ st,
    match start_all f xs st with
    | (rs, st') =>
        match rejections rs with
        | [] => (inr (fulfilments rs), st')
        | e :: es =>
            let i := settles_first ext (st_world st') (e :: es) in
            (inl (nth (i `mod` length (e :: es))%nat (e :: es) e), st')
        end
    end.

Definition handleDeliveryReceipt (envelope : Envelope) : M unit :=
  dispatchEvent (new_Event "receipt" (ReceiptFields envelope)) ;;;
  ret tt.

Definition decryptPreKeyWhisperMessage
    (ciphertext : option bytes) (name : string) (device : Z) : M bytes :=
  try_catch
    (plain <- call (sessionDecryptPreKeyWhisperMessage ext name device ciphertext) ;;
     lift (unpad plain))
    (λ e,
       if bool_decide (err_message e = "Unknown identity key") then
         throw (mkJSError (IncomingIdentityKeyError_name ext)
                          (IncomingIdentityKeyError_message ext)
                          true
                          (IncomingIdentityKeyError_isTextSecureError ext)
                          (Some (addressToString ext name device))
                          (err_identityKey e))
       else throw e).

Definition decrypt (envelope : Envelope) (ciphertext : option bytes) : M bytes :=
  match env_type envelope with
  | CIPHERTEXT =>
      plain <- call (decryptWhisperMessage ext (env_source envelope)
                       (env_sourceDevice envelope) ciphertext) ;;
      lift (unpad plain)
  | PREKEY_BUNDLE =>
      decryptPreKeyWhisperMessage ciphertext (env_source envelope)
        (env_sourceDevice envelope)
  | _ => throw (Error "Unknown message type")
  end.

Definition handleEndSession (addr : string) : M unit :=
  deviceIds <- call (getDeviceIds ext addr) ;;
  promise_all
    (λ deviceId,
       console "warn" "Closing session for" ;;;
       call (closeOpenSessionForDevice ext addr deviceId))
    deviceIds ;;;
  ret tt.

Definition handleAttachment (attachment : Attachment) : M Attachment :=
  encrypted <- call (getAttachment ext (att_id attachment)) ;;
  data <- call (decryptAttachment ext encrypted (att_key attachment)) ;;
  ret (mkAttachment (att_id attachment) (att_key attachment) (Some data)).

(** [processDecrypted(msg, source)]: the result is [msg] after the
    assignments to its properties and to its attachments. *)
Definition processDecrypted (msg : DataMessage) (source : string) : M DataMessage :=
  let msg :=
    match dm_flags msg with
    | None => mkDataMessage (dm_body msg) (Some 0) (dm_expireTimer msg)
                            (dm_group msg) (dm_attachments msg)
    | Some _ => msg
    end in
  let msg :=
    match dm_expireTimer msg with
    | None => mkDataMessage (dm_body msg) (dm_flags msg) (Some 0)
                            (dm_group msg) (dm_attachments msg)
    | Some _ => msg
    end in
  if truthy (js_band (dm_flags msg) (END_SESSION ext)) then ret msg
  else
    (if dm_group msg then console "error" "Legacy group message detected"
     else ret tt) ;;;
    match dm_attachments msg with
    | Some attachments =>
        attachments' <- promise_all handleAttachment attachments ;;
        ret (mkDataMessage (dm_body msg) (dm_flags msg) (dm_expireTimer msg)
                           (dm_group msg) (Some attachments'))
    | None => ret msg
    end.

Definition handleSentMessage (sent : Sent) (envelope : Envelope) : M unit :=
  match sent_message sent with
  | None => throw (TypeError "Cannot read properties of null (reading 'flags')")
  | Some message =>
      (if truthy (js_band (dm_flags message) (END_SESSION ext))
       then handleEndSession (sent_destination sent)
       else ret tt) ;;;
      message' <- processDecrypted message (addr this) ;;
      dispatchEvent
        (new_Event "sent"
           (SentFields
              (mkSentData (env_source envelope) (env_sourceDevice envelope)
                          (toNumber (sent_timestamp sent))
                          (sent_destination sent)
                          message' (toNumber <$> sent_expire sent)))) ;;;
      ret tt
  end.

Definition handleDataMessage (message : DataMessage) (envelope : Envelope) : M unit :=
  (if truthy (js_band (dm_flags message) (END_SESSION ext))
   then handleEndSession (env_source envelope)
   else ret tt) ;;;
  message' <- processDecrypted message (env_source envelope) ;;
  dispatchEvent
    (new_Event "message"
       (MessageFields
          (mkMessageData (env_timestamp envelope) (env_source envelope)
                         (env_sourceDevice envelope) message'
                         (env_keyChange envelope)))) ;;;
  ret tt.

Definition handleLegacyMessage (envelope : Envelope) : M unit :=
  data <- decrypt envelope (env_legacyMessage envelope) ;;
  message <- lift (DataMessage_decode ext data) ;;
  handleDataMessage message envelope.

(** The loop of [handleRead]. *)
Fixpoint handleRead (read : list Read) (envelope : Envelope) : M unit :=
  match read with
  | [] => ret tt
  | x :: rest =>
      dispatchEvent
        (new_Event "read"
           (ReadFields (env_timestamp envelope)
              (mkReadData (toNumber (read_timestamp x)) (read_sender x)
                          (env_source envelope) (env_sourceDevice envelope)))) ;;;
      handleRead rest envelope
  end.

Definition handleBlocked (blocked : bytes) : M unit :=
  throw (Error "UNSUPPORTRED").

(** [message.read && message.read.length] *)
Definition nonempty_read (message : SyncMessage) : option (list Read) :=
  match sync_read message with
  | Some (x :: rest) => Some (x :: rest)
  | _ => None
  end.

Definition handleSyncMessage (message : SyncMessage) (envelope : Envelope) : M unit :=
  if bool_decide (env_source envelope ≠ addr this) then
    throw (ReferenceError "Received sync message from another addr")
  else if bool_decide (env_sourceDevice envelope = deviceId this) then
    throw (ReferenceError "Received sync message from our own device")
  else
    match sync_sent message with
    | Some sent => handleSentMessage sent envelope
    | None =>
        match nonempty_read message with
        | Some read => handleRead read envelope
        | None =>
            if present (sync_contacts message) then
              console "error" "Deprecated contact sync message:" ;;;
              throw (TypeError "Deprecated contact sync message")
            else if present (sync_groups message) then
              console "error" "Deprecated group sync message:" ;;;
              throw (TypeError "Deprecated group sync message")
            else
              match sync_blocked message with
              | Some blocked => handleBlocked blocked
              | None =>
                  if present (sync_request message) then
                    console "error" "Deprecated group request sync message:" ;;;
                    throw (TypeError "Deprecated group request sync message")
                  else
                    console "error" "Empty sync message:" ;;;
                    throw (TypeError "Empty SyncMessage")
              end
        end
    end.

Definition handleContentMessage (envelope : Envelope) : M unit :=
  data <- decrypt envelope (env_content envelope) ;;
  content <- lift (Content_decode ext data) ;;
  match content_syncMessage content, content_dataMessage content with
  | Some syncMessage, _ => handleSyncMessage syncMessage envelope
  | None, Some dataMessage => handleDataMessage dataMessage envelope
  | None, None =>
      throw (TypeError "Got content message with no dataMessage or syncMessage")
  end.

(** The handler [handleEnvelope] selects, or the error it throws when the
    envelope carries nothing. *)
Definition select_handler (envelope : Envelope) : Completion (Envelope → M unit) :=
  match env_type envelope with
  | RECEIPT => inr handleDeliveryReceipt
  | _ =>
      if present (env_content envelope) then inr handleContentMessage
      else if present (env_legacyMessage envelope) then inr handleLegacyMessage
      else inl (Error "Received message with no content and no legacyMessage")
  end.

(** The [catch (e)] block of [handleEnvelope], with the recursive call of
    the function as [self]. *)
Definition handleEnvelope_catch (self : Envelope → bool → M unit)
    (envelope : Envelope) (reentrant : bool) (e : JSError) : M unit :=
  if bool_decide (err_name e = "MessageCounterError") then
    console "warn" "Ignoring MessageCounterError for:" ;;;
    ret tt
  else if err_isIncomingIdentityKeyError e && negb reentrant then
    ev <- dispatchEvent
            (new_Event "keychange"
               (KeychangeFields (err_addr e) (err_identityKey e))) ;;
    if ev_accepted ev then self (set_keyChange true envelope) true
    else ret tt
  else if err_isTextSecureError e then
    console "warn" "Supressing TextSecureError:" ;;;
    ret tt
  else
    dispatchEvent (new_Event "error" (ErrorFields e (Some envelope))) ;;;
    throw e.

(** The body of [handleEnvelope]. *)
Definition handleEnvelope_body (self : Envelope → bool → M unit)
    (envelope : Envelope) (reentrant : bool) : M unit :=
  emit (EHandleEnvelope envelope reentrant) ;;;
  handler <- lift (select_handler envelope) ;;
  try_catch (handler envelope) (handleEnvelope_catch self envelope reentrant).

(** [handleEnvelope(envelope, reentrant)].  The function calls itself only
    where [reentrant] is false, and then with [reentrant] true, so two
    unfoldings of the body tie the recursion; [handleEnvelope_unfold] below
    is the recursive equation of the source. *)
Definition handleEnvelope (envelope : Envelope) (reentrant : bool) : M unit :=
  handleEnvelope_body
    (handleEnvelope_body (λ _ _, ret tt)) envelope reentrant.

(** The [try] block of [handleRequest]: frame decryption, decoding, and
    the conversion of the timestamp.  The envelope has the fields of the
    wire message, its timestamp as a number, and no [keyChange] property. *)
Definition decodeFrame (request : Request) : Completion Envelope :=
  match decryptWebsocketMessage ext (req_body request) (signalingKey this) with
  | inl e => inl e
  | inr data =>
      match Envelope_decode ext data with
      | inl e => inl e
      | inr w => inr (envelope_of_wire w)
      end
  end.

Definition handleRequest (request : Request) : M unit :=
  if bool_decide (req_path request ≠ "/api/v1/message")
     || bool_decide (req_verb request ≠ "PUT") then
    console "error" "Expected PUT /message instead of:" ;;;
    throw (Error "Invalid WebSocket resource received")
  else
    match decodeFrame request with
    | inl e =>
        respond 500 "Bad encrypted websocket message" ;;;
        console "error" "Error handling incoming message:" ;;;
        dispatchEvent (new_Event "error" (ErrorFields e None)) ;;;
        throw e
    | inr envelope =>
        try_finally (handleEnvelope envelope false) (respond 200 "OK")
    end.

End MessageReceiver.
End MessageReceiver.

(** ** Notions of the specification *)

Definition is_zero (b : byte) : bool :=
  match b with x00 => true | _ => false end.

(** The first non-zero byte of a buffer scanning from its tail, if any. *)
Definition trailer_marker (buf : bytes) : option byte :=
  List.find (λ b, negb (is_zero b)) (reverse buf).

(** [this._listeners[type]]: [None] where the listener list is undefined. *)
Definition listener_list {World} (st : State World) (type : string)
    : option (list (Listener World)) :=
  st_listeners st ≫= λ listeners, listeners !! type.

(** The state after one more effect in the trace. *)
Definition logged {World} (e : Effect) (st : State World) : State World :=
  mkState (st_world st) (st_listeners st) (st_trace st ++ [e]).

(** The error kinds of the specification, as the code throws them. *)
Definition BadTransportRequest : JSError :=
  Error "Invalid WebSocket resource received".
Definition ForeignSyncError : JSError :=
  ReferenceError "Received sync message from another addr".
Definition SelfSyncError : JSError :=
  ReferenceError "Received sync message from our own device".
Definition Unsupported : JSError := Error "UNSUPPORTRED".
Definition DeprecatedContactSync : JSError :=
  TypeError "Deprecated contact sync message".
Definition DeprecatedGroupSync : JSError :=
  TypeError "Deprecated group sync message".
Definition DeprecatedRequestSync : JSError :=
  TypeError "Deprecated group request sync message".
Definition EmptySync : JSError := TypeError "Empty SyncMessage".

(** An error the catch block of [handleEnvelope] takes for a
    [MessageCounterError]. *)
Definition counter_error (e : JSError) : Prop :=
  err_name e = "MessageCounterError".

(** ** Predicates over runs *)

Section RunPredicates.
Context {World : Type}.

(** [m] only appends to the trace, and every effect it appends satisfies
    [P]. *)
Definition emits {A} (P : Effect → Prop) (m : M World A) : Prop :=
  ∀ st, ∃ new, st_trace (m st).2 = st_trace st ++ new ∧ Forall P new.

(** [m] never fails with a counter error. *)
Definition no_counter {A} (m : M World A) : Prop :=
  ∀ st e st', m st = (inl e, st') → ¬ counter_error e.

(** When [m] fails with a counter error, it has dispatched no event. *)
Definition silent_on_counter {A} (m : M World A) : Prop :=
  ∀ st e st', m st = (inl e, st') → counter_error e →
    dispatched (st_trace st') = dispatched (st_trace st).

End RunPredicates.

Definition is_console (e : Effect) : Prop :=
  match e with EConsole _ _ => True | _ => False end.

(** What a handler may leave in the trace while it works on [envelope]:
    console output, and events of the four handler types; a [message] event
    carries the [keyChange] property of the envelope. *)
Definition handler_effect (envelope : Envelope) (e : Effect) : Prop :=
  match e with
  | EConsole _ _ => True
  | EDispatch ev =>
      ev_accepted ev = false ∧
      match ev_fields ev with
      | MessageFields data =>
          ev_type ev = "message" ∧ md_keyChange data = env_keyChange envelope
      | SentFields _ => ev_type ev = "sent"
      | ReceiptFields _ => ev_type ev = "receipt"
      | ReadFields _ _ => ev_type ev = "read"
      | _ => False
      end
  | _ => False
  end.

(** What [handleDataMessage] may leave in the trace: console output and
    [message] events carrying the envelope's [keyChange]. *)
Definition data_message_effect (envelope : Envelope) (e : Effect) : Prop :=
  match e with
  | EConsole _ _ => True
  | EDispatch ev =>
      ev_accepted ev = false ∧ ev_type ev = "message" ∧
      ∃ data, ev_fields ev = MessageFields data ∧
              md_keyChange data = env_keyChange envelope
  | _ => False
  end.

(** ** A concrete receiver *)

(** A receiver over a stub session store, used to run the model on concrete
    requests and envelopes: own address [+15550009999], own device 1.  The
    world is one bit: whether the identity key of the peer is trusted. *)
Module Fixture.

Definition MessageCounterError : JSError :=
  mkJSError "MessageCounterError" "Key used already or never filled"
            false false None None.

Definition UnknownIdentityKey : JSError :=
  mkJSError "Error" "Unknown identity key" false false None (Some [x05; x2a]).

(** The stub session cipher: a ciphertext starting with [0x4d] is a
    duplicate, one starting with [0x4b] is refused until the identity key is
    trusted, any other ciphertext is its own plaintext. *)
Definition session (ciphertext : option bytes) : @Call bool bytes :=
  λ w,
    match ciphertext with
    | Some (x4d :: _) => (inl MessageCounterError, w)
    | Some (x4b :: rest) =>
        if w then (inr rest, w) else (inl UnknownIdentityKey, w)
    | Some c => (inr c, w)
    | None => (inl (TypeError "ciphertext required"), w)
    end.

Definition hi : DataMessage := mkDataMessage (Some "hi") None None false None.

Definition blocked_and_contacts : SyncMessage :=
  mkSyncMessage None None (Some [x01]) None (Some [x02]) None.

(** The stub frame layer: an empty body fails authentication; the first
    byte of the frame selects the envelope type, the rest is its content. *)
Definition decode_envelope (data : bytes) : Completion WireEnvelope :=
  match data with
  | x01 :: rest =>
      inr (mkWireEnvelope CIPHERTEXT "+15550001111" 1 1000 (Some rest) None)
  | x03 :: rest =>
      inr (mkWireEnvelope PREKEY_BUNDLE "+15550001111" 1 1000 (Some rest) None)
  | x05 :: _ =>
      inr (mkWireEnvelope RECEIPT "+15550001111" 1 1000 None None)
  | _ => inl (Error "illegal buffer")
  end.

Definition ext : Externals bool := {|
  decryptWebsocketMessage body key :=
    match body with [] => inl (Error "Bad MAC") | _ => inr body end;
  Envelope_decode := decode_envelope;
  Content_decode data :=
    match data with
    | x53 :: _ => inr (mkContent (Some blocked_and_contacts) None)
    | _ => inr (mkContent None (Some hi))
    end;
  DataMessage_decode data := inr hi;
  END_SESSION := 1;
  addressToString name device := name;
  decryptWhisperMessage name device := session;
  sessionDecryptPreKeyWhisperMessage name device := session;
  getDeviceIds a := λ w, (inr [1; 2], w);
  closeOpenSessionForDevice a device := λ w, (inr tt, w);
  getAttachment id := λ w, (inr [], w);
  decryptAttachment encrypted key := λ w, (inr encrypted, w);
  IncomingIdentityKeyError_name := "IncomingIdentityKeyError";
  IncomingIdentityKeyError_message := "";
  IncomingIdentityKeyError_isTextSecureError := true;
  settles_first w rejected := 0%nat
|}.

Definition this : Identity := mkIdentity "+15550009999" 1 [x2a].

(** A target on which nothing was registered. *)
Definition fresh : State bool := mkState false None [].

Definition on_message : Listener bool :=
  mkListener 1 (λ ev w, (inr tt, ev, w)).

(** A listener that trusts the new identity key and accepts the change. *)
Definition on_keychange : Listener bool :=
  mkListener 2
    (λ ev w, (inr tt, mkEvent (ev_type ev) (ev_fields ev) true, true)).

(** The application registered a [message] listener and nothing else. *)
Definition message_only : State bool :=
  (EventTarget.addEventListener "message" on_message fresh).2.

Definition data_envelope : Envelope :=
  mkEnvelope CIPHERTEXT "+15550001111" 1 1000 (Some [x68; x69; x80]) None None.

Definition duplicate_envelope : Envelope :=
  mkEnvelope CIPHERTEXT "+15550001111" 1 1000 (Some [x4d]) None None.

Definition prekey_envelope : Envelope :=
  mkEnvelope PREKEY_BUNDLE "+15550001111" 1 1000
             (Some [x4b; x68; x69; x80]) None None.

(** A sync envelope from the own address and another device. *)
Definition sync_envelope : Envelope :=
  mkEnvelope CIPHERTEXT "+15550009999" 2 1000 (Some [x53; x80]) None None.

(** A sync envelope from another address, and one from the own device. *)
Definition foreign_sync_envelope : Envelope :=
  mkEnvelope CIPHERTEXT "+15550001111" 2 1000 (Some [x53; x80]) None None.
Definition self_sync_envelope : Envelope :=
  mkEnvelope CIPHERTEXT "+15550009999" 1 1000 (Some [x53; x80]) None None.

Definition put_request (body : bytes) : Request :=
  mkRequest "PUT" "/api/v1/message" body.
Definition get_request (body : bytes) : Request :=
  mkRequest "GET" "/api/v1/message" body.

Definition keychange_event : Event :=
  new_Event "keychange" (KeychangeFields (Some "+15550001111") None).

(** The application registered a [message] and a [keychange] listener. *)
Definition accepting : State bool :=
  (EventTarget.addEventListener "keychange" on_keychange message_only).2.

End Fixture.

(** ** A second concrete target *)

(** Listeners over a world that counts the calls it has seen. *)
Module Bench.

Definition fresh : State nat := mkState 0%nat None [].

(** A listener that counts its call and returns. *)
Definition counting (id : nat) : Listener nat :=
  mkListener id (λ ev w, (inr tt, ev, S w)).

(** A listener that counts its call and throws. *)
Definition faulty (id : nat) : Listener nat :=
  mkListener id (λ ev w, (inl (Error "listener failed"), ev, S w)).

Definition ping : Event := new_Event "ping" (KeychangeFields None None).

End Bench.

(** ** Further notions *)

(** The world after [closeOpenSessionForDevice] ran for each device id in
    turn, whether the calls returned or threw. *)
Definition closed_sessions {World} (ext : Externals World) (addr : string)
    (deviceIds : list Z) (w : World) : World :=
  foldl (λ w deviceId, (closeOpenSessionForDevice ext addr deviceId w).2)
        w deviceIds.

(** An attachment after [handleAttachment]: same id and key, data set. *)
Definition fetched (a a' : Attachment) : Prop :=
  att_id a' = att_id a ∧ att_key a' = att_key a ∧ is_Some (att_data a').

(** [msg.flags & DATA_FLAGS.END_SESSION] is truthy. *)
Definition ends_session {World} (ext : Externals World) (msg : DataMessage) : bool :=
  truthy (js_band (dm_flags msg) (END_SESSION ext)).

(** What [processDecrypted] makes of a message, field by field: [flags]
    and [expireTimer] numeric, body and group as they came; the
    attachments as they came for an end-session message, else fetched one
    for one. *)
Definition processed {World} (ext : Externals World) (msg msg' : DataMessage)
    : Prop :=
  dm_flags msg' = Some (default 0 (dm_flags msg)) ∧
  dm_expireTimer msg' = Some (default 0 (dm_expireTimer msg)) ∧
  dm_body msg' = dm_body msg ∧
  dm_group msg' = dm_group msg ∧
  match dm_attachments msg with
  | None => dm_attachments msg' = None
  | Some attachments =>
      if ends_session ext msg then dm_attachments msg' = Some attachments
      else ∃ attachments',
             dm_attachments msg' = Some attachments' ∧
             Forall2 fetched attachments attachments'
  end.

(** The event [handleRead] builds for one entry of [read]. *)
Definition read_event (envelope : Envelope) (x : Read) : Event :=
  new_Event "read"
    (ReadFields (env_timestamp envelope)
       (mkReadData (toNumber (read_timestamp x)) (read_sender x)
                   (env_source envelope) (env_sourceDevice envelope))).

(** The event [handleSentMessage] builds. *)
Definition sent_event (envelope : Envelope) (sent : Sent) (message : DataMessage)
    : Event :=
  new_Event "sent"
    (SentFields
       (mkSentData (env_source envelope) (env_sourceDevice envelope)
                   (toNumber (sent_timestamp sent)) (sent_destination sent)
                   message (toNumber <$> sent_expire sent))).

(** The event [handleDataMessage] builds. *)
Definition message_event (envelope : Envelope) (message : DataMessage) : Event :=
  new_Event "message"
    (MessageFields
       (mkMessageData (env_timestamp envelope) (env_source envelope)
                      (env_sourceDevice envelope) message
                      (env_keyChange envelope))).

(** The event of the last branch of the catch block of [handleEnvelope]. *)
Definition error_event (envelope : Envelope) (e : JSError) : Event :=
  new_Event "error" (ErrorFields e (Some envelope)).

(** The event of the identity-key branch. *)
Definition keychange_event (e : JSError) : Event :=
  new_Event "keychange" (KeychangeFields (err_addr e) (err_identityKey e)).

(** What the handling of a sync message may leave in the trace: console
    output, [sent] and [read] events. *)
Definition sync_effect (e : Effect) : Prop :=
  match e with
  | EConsole _ _ => True
  | EDispatch ev => ev_type ev = "sent" ∨ ev_type ev = "read"
  | _ => False
  end.

(** The error [decryptPreKeyWhisperMessage] makes of a session failure. *)
Definition identity_key_error {World} (ext : Externals World)
    (name : string) (device : Z) (e : JSError) : JSError :=
  mkJSError (IncomingIdentityKeyError_name ext)
            (IncomingIdentityKeyError_message ext)
            true (IncomingIdentityKeyError_isTextSecureError ext)
            (Some (addressToString ext name device)) (err_identityKey e).

(** ** A receiver over a call log *)

(** The world is the log of the calls made to the session store and to the
    service.  Closing the session of device 1 fails; a ciphertext starting
    with [0x55] comes from an unknown identity key; a plaintext starting
    with [0x53] is a content with both a sync and a data message, one with
    [0x52] a sync message of two read entries. *)
Module Samples.

Definition Log := list (string * Z).

Definition with_attachment : DataMessage :=
  mkDataMessage (Some "pic") (Some 0) None false
                (Some [mkAttachment 7 [x01] None; mkAttachment 8 [x02] None]).

Definition sent_hi : Sent :=
  mkSent "+15550002222" 2000 (Some Fixture.hi) None.

Definition reads : list Read := [mkRead 10 "+15550003333"; mkRead 11 "+15550004444"].

Definition session (ciphertext : option bytes) : @Call Log bytes :=
  λ w,
    match ciphertext with
    | Some (x55 :: _) => (inl (Error "Unknown identity key"), w ++ [("decrypt", 0)])
    | Some c => (inr c, w ++ [("decrypt", 0)])
    | None => (inl (TypeError "ciphertext required"), w)
    end.

Definition ext : Externals Log := {|
  decryptWebsocketMessage body key := inr body;
  Envelope_decode data :=
    inr (mkWireEnvelope CIPHERTEXT "+15550001111" 1 1000 (Some data) None);
  Content_decode data :=
    match data with
    | x53 :: _ =>
        inr (mkContent (Some (mkSyncMessage (Some sent_hi) None None None None None))
                       (Some Fixture.hi))
    | x52 :: _ =>
        inr (mkContent (Some (mkSyncMessage None (Some reads) None None None None))
                       None)
    | _ => inr (mkContent None (Some with_attachment))
    end;
  DataMessage_decode data := inr Fixture.hi;
  END_SESSION := 1;
  addressToString name device := name;
  decryptWhisperMessage name device := session;
  sessionDecryptPreKeyWhisperMessage name device := session;
  getDeviceIds a := λ w, (inr [1; 2; 3], w);
  closeOpenSessionForDevice a device :=
    λ w, (if bool_decide (device = 1) then inl (Error "no session") else inr tt,
          w ++ [("close", device)]);
  getAttachment id := λ w, (inr [x2a], w ++ [("fetch", id)]);
  decryptAttachment encrypted key := λ w, (inr (encrypted ++ key), w);
  IncomingIdentityKeyError_name := "IncomingIdentityKeyError";
  IncomingIdentityKeyError_message := "";
  IncomingIdentityKeyError_isTextSecureError := true;
  settles_first w rejected := 0%nat
|}.

Definition this : Identity := mkIdentity "+15550009999" 1 [x2a].

Definition fresh : State Log := mkState [] None [].

Definition envelope (type : EnvelopeType) (source : string) (device : Z)
    (content : bytes) : Envelope :=
  mkEnvelope type source device 1000 (Some content) None None.

End Samples.

(** ** Further predicates over runs *)

Section MoreRunPredicates.
Context {World : Type}.

(** When [m] fails with anything but the error of [dispatchEvent], it has
    dispatched no event. *)
Definition fails_early {A} (m : M World A) : Prop :=
  ∀ st e st', m st = (inl e, st') → e ≠ EventTarget.not_iterable →
    dispatched (st_trace st') = dispatched (st_trace st).

(** The only error [m] fails with is the one of [dispatchEvent]. *)
Definition throws_only_dispatch {A} (m : M World A) : Prop :=
  ∀ st e st', m st = (inl e, st') → e = EventTarget.not_iterable.

(** [m] dispatches at most [n] events of type [message]. *)
Definition messages_at_most {A} (n : nat) (m : M World A) : Prop :=
  ∀ st, ∃ l,
    dispatched_of "message" (st_trace (m st).2)
      = dispatched_of "message" (st_trace st) ++ l ∧ (length l ≤ n)%nat.

End MoreRunPredicates.

(** A [message] event in the trace carries one of the [keyChange] values
    [allowed]. *)
Definition message_keyChange_in (allowed : option bool → Prop) (e : Effect) : Prop :=
  match e with
  | EDispatch ev =>
      ∀ data, ev_fields ev = MessageFields data → allowed (md_keyChange data)
  | _ => True
  end.


(** The message [processDecrypted] returns when it fetches nothing: flags and timer made numeric. *)
Definition normalised (msg : DataMessage) : DataMessage :=
  mkDataMessage (dm_body msg) (Some (default 0 (dm_flags msg)))
                (Some (default 0 (dm_expireTimer msg)))
                (dm_group msg) (dm_attachments msg).


(** * Properties *)

(** ** Padding removal *)

(** Trailing zero bytes are skipped by the scan. *)
Lemma unpad_from_skip_zeros (buf : bytes) (n j : nat) :
  (∀ i, (n ≤ i < n + j)%nat → buf !! i = Some x00) →
  unpad_from buf (n + j) = unpad_from buf n.
Proof.
  induction j as [|j IH]; intros Hz.
  - by rewrite Nat.add_0_r.
  - replace (n + S j)%nat with (S (n + j)) by lia.
    cbn [unpad_from]. rewrite (Hz (n + j)%nat) by lia.
    apply IH. intros i Hi. apply Hz. lia.
Qed.

Lemma lookup_zero_tail (pre : bytes) (b : byte) (k i : nat) :
  (S (length pre) ≤ i < S (length pre) + k)%nat →
  (pre ++ b :: replicate k x00) !! i = Some x00.
Proof.
  intros Hi. rewrite lookup_app_r by lia.
  destruct (i - length pre)%nat as [|d] eqn:Hd; [lia|].
  cbn. apply lookup_replicate_2. lia.
Qed.

(** The scan of [pre ++ b :: 0x00^k] reaches [b] at index [length pre]. *)
Lemma unpad_reaches_marker (pre : bytes) (b : byte) (k : nat) :
  unpad (pre ++ b :: replicate k x00) =
  unpad_from (pre ++ b :: replicate k x00) (S (length pre)).
Proof.
  unfold unpad. rewrite length_app. cbn [length]. rewrite length_replicate.
  replace (length pre + S k)%nat with (S (length pre) + k)%nat by lia.
  apply unpad_from_skip_zeros. intros i Hi. by apply lookup_zero_tail.
Qed.

Lemma unpad_marker (pre : bytes) (k : nat) :
  unpad (pre ++ x80 :: replicate k x00) = inr pre.
Proof.
  rewrite unpad_reaches_marker. cbn [unpad_from].
  rewrite list_lookup_middle by done.
  by rewrite take_app_length.
Qed.

Lemma unpad_bad_marker (pre : bytes) (b : byte) (k : nat) :
  is_zero b = false → b ≠ x80 →
  unpad (pre ++ b :: replicate k x00) = inl PaddingError.
Proof.
  intros Hz H80. rewrite unpad_reaches_marker. cbn [unpad_from].
  rewrite list_lookup_middle by done.
  destruct b; try done.
Qed.

(** A buffer with a trailer marker is that marker between a prefix and a
    run of zero bytes. *)
Lemma trailer_marker_split (buf : bytes) (b : byte) :
  trailer_marker buf = Some b →
  ∃ pre k, buf = pre ++ b :: replicate k x00 ∧ is_zero b = false.
Proof.
  unfold trailer_marker. induction buf as [|x l IH] using rev_ind.
  - done.
  - rewrite reverse_snoc. cbn [List.find].
    destruct (is_zero x) eqn:Hx; cbn [negb].
    + intros H. destruct (IH H) as (pre & k & -> & Hb).
      exists pre, (S k). split; [|done].
      destruct x; try done.
      rewrite <- app_assoc. cbn [app]. f_equal. f_equal.
      by rewrite replicate_S_end.
    + intros [= ->]. exists l, 0%nat. by split.
Qed.

Lemma unpad_all_zero (k : nat) :
  unpad (replicate k x00) = inr (replicate k x00).
Proof.
  unfold unpad. rewrite length_replicate.
  change k with (0 + k)%nat at 2.
  rewrite unpad_from_skip_zeros; [done|].
  intros i Hi. apply lookup_replicate_2. lia.
Qed.

(** C4.  The claim is that [unpad] returns the empty byte string for every
    all-zero buffer.  On the all-zero buffer of two bytes the loop ends
    without finding a marker and [return buf] hands back the two zero bytes,
    not the empty string its comment announces. *)
Theorem unpad_zero_buffer_returned :
  unpad [x00; x00] = inr [x00; x00] ∧ unpad [x00; x00] ≠ inr [].
Proof. split; [reflexivity | discriminate]. Qed.

(** C5.  Padding round trip: [unpad (plaintext ++ [0x80] ++ 0x00^k)] is
    [plaintext], for every [plaintext] and [k]; and a buffer whose first
    non-zero byte from the tail exists and is not [0x80] makes [unpad] fail
    with [PaddingError]. *)
Theorem unpad_roundtrip_and_reject (plaintext buf : bytes) (k : nat) (b : byte) :
  unpad (plaintext ++ [x80] ++ replicate k x00) = inr plaintext ∧
  (trailer_marker buf = Some b → b ≠ x80 → unpad buf = inl PaddingError).
Proof.
  split.
  - apply unpad_marker.
  - intros Hm H80.
    destruct (trailer_marker_split _ _ Hm) as (pre & j & -> & Hz).
    by apply unpad_bad_marker.
Qed.

Lemma unpad_roundtrip_and_reject_witness :
  unpad ([x68; x69] ++ [x80] ++ replicate 3 x00) = inr [x68; x69] ∧
  unpad [x68; x69; x01; x00] = inl PaddingError.
Proof.
  split.
  - apply (unpad_roundtrip_and_reject [x68; x69] [] 3 x00).
  - apply (unpad_roundtrip_and_reject [] [x68; x69; x01; x00] 0 x01);
      [reflexivity | discriminate].
Defined.

(** ** The event target *)

Section EventTargetFacts.
Context {World : Type}.
Implicit Types (st : State World) (ev : Event).

Lemma dispatchEvent_no_listeners st ev :
  st_listeners st = None →
  EventTarget.dispatchEvent ev st = (inr ev, logged (EDispatch ev) st).
Proof.
  intros H. unfold EventTarget.dispatchEvent, logged, bind, emit, ret. cbn.
  by rewrite H.
Qed.

Lemma dispatchEvent_undefined_list st ev listeners :
  st_listeners st = Some listeners →
  listeners !! ev_type ev = None →
  EventTarget.dispatchEvent ev st =
    (inl EventTarget.not_iterable, logged (EDispatch ev) st).
Proof.
  intros H1 H2. unfold EventTarget.dispatchEvent, logged, bind, emit, throw. cbn.
  by rewrite H1, H2.
Qed.

Lemma dispatchEvent_defined_list st ev listeners callbacks :
  st_listeners st = Some listeners →
  listeners !! ev_type ev = Some callbacks →
  EventTarget.dispatchEvent ev st =
    EventTarget.call_listeners callbacks ev (logged (EDispatch ev) st).
Proof.
  intros H1 H2. unfold EventTarget.dispatchEvent, logged, bind, emit. cbn.
  by rewrite H1, H2.
Qed.


(** Once defined, [_listeners] stays defined: [removeEventListener] and
    [dispatchEvent] never reset it. *)
Lemma removeEventListener_listeners st eventName callback :
  is_Some (st_listeners st) →
  is_Some (st_listeners (EventTarget.removeEventListener eventName callback st).2).
Proof.
  intros [listeners Hl]. unfold EventTarget.removeEventListener. rewrite Hl.
  destruct (listeners !! eventName);
    [|destruct (EventTarget.inherited eventName)]; cbn; by rewrite ?Hl.
Qed.

Lemma call_listeners_listeners callbacks ev st :
  st_listeners (EventTarget.call_listeners callbacks ev st).2 = st_listeners st.
Proof.
  revert ev st. induction callbacks as [|cb rest IH]; intros ev st; [done|].
  cbn [EventTarget.call_listeners].
  destruct (l_call cb ev (st_world st)) as [[[e|[]] ev'] w].
  - unfold bind, console, emit. cbn. by rewrite IH.
  - by rewrite IH.
Qed.

Lemma dispatchEvent_listeners st ev :
  st_listeners (EventTarget.dispatchEvent ev st).2 = st_listeners st.
Proof.
  unfold EventTarget.dispatchEvent, bind, emit. cbn.
  destruct (st_listeners st) as [listeners|] eqn:Hl; [|done].
  destruct (listeners !! ev_type ev); [|done].
  by rewrite call_listeners_listeners.
Qed.

(** A type whose listeners were all removed keeps an empty list, and an
    event of that type is dispatched to nobody. *)
Lemma dispatchEvent_empty_list st ev listeners :
  st_listeners st = Some listeners →
  listeners !! ev_type ev = Some [] →
  EventTarget.dispatchEvent ev st = (inr ev, logged (EDispatch ev) st).
Proof.
  intros H1 H2. by rewrite (dispatchEvent_defined_list _ _ _ _ H1 H2).
Qed.



End EventTargetFacts.



(** ** Runs of the receiver's monad *)

Section RunFacts.
Context {World : Type}.
Implicit Types (st : State World) (P Q : Effect → Prop).

Lemma emits_mono {A} P Q (m : M World A) :
  (∀ e, P e → Q e) → emits P m → emits Q m.
Proof.
  intros HPQ Hm st. destruct (Hm st) as (new & Ht & Hnew).
  exists new. split; [done|]. eapply Forall_impl; eauto.
Qed.

Lemma emits_ret {A} P (a : A) : emits P (ret a : M World A).
Proof. intros st. exists []. by rewrite app_nil_r. Qed.

Lemma emits_throw {A} P e : emits P (throw e : M World A).
Proof. intros st. exists []. by rewrite app_nil_r. Qed.

Lemma emits_lift {A} P (c : Completion A) : emits P (lift c : M World A).
Proof. intros st. exists []. by rewrite app_nil_r. Qed.

Lemma emits_call {A} P (c : Call A) : emits P (call c : M World A).
Proof.
  intros st. exists []. unfold call. destruct (c (st_world st)). cbn.
  by rewrite app_nil_r.
Qed.

Lemma emits_emit P e : P e → emits P (emit e : M World unit).
Proof. intros He st. exists [e]. split; [done|]. by constructor. Qed.

Lemma emits_bind {A B} P (m : M World A) (k : A → M World B) :
  emits P m → (∀ a, emits P (k a)) → emits P (bind m k).
Proof.
  intros Hm Hk st. unfold bind.
  destruct (Hm st) as (new1 & Ht1 & Hn1).
  destruct (m st) as [[e|a] st1]; cbn in *.
  - by exists new1.
  - destruct (Hk a st1) as (new2 & Ht2 & Hn2).
    exists (new1 ++ new2). rewrite Ht2, Ht1, app_assoc. split; [done|].
    by apply Forall_app.
Qed.

Lemma emits_try_catch {A} P (m : M World A) (h : JSError → M World A) :
  emits P m → (∀ e, emits P (h e)) → emits P (try_catch m h).
Proof.
  intros Hm Hh st. unfold try_catch.
  destruct (Hm st) as (new1 & Ht1 & Hn1).
  destruct (m st) as [[e|a] st1]; cbn in *.
  - destruct (Hh e st1) as (new2 & Ht2 & Hn2).
    exists (new1 ++ new2). rewrite Ht2, Ht1, app_assoc. split; [done|].
    by apply Forall_app.
  - by exists new1.
Qed.

Lemma emits_try_finally {A} P (m : M World A) (fin : M World unit) :
  emits P m → emits P fin → emits P (try_finally m fin).
Proof.
  intros Hm Hf st. unfold try_finally.
  destruct (Hm st) as (new1 & Ht1 & Hn1).
  destruct (m st) as [r st1]; cbn in *.
  destruct (Hf st1) as (new2 & Ht2 & Hn2).
  exists (new1 ++ new2).
  destruct (fin st1) as [[e|[]] st2]; cbn in *;
    rewrite Ht2, Ht1, app_assoc; (split; [done|]); by apply Forall_app.
Qed.

Lemma emits_call_listeners P callbacks ev :
  (∀ l s, P (EConsole l s)) →
  emits P (EventTarget.call_listeners callbacks ev : M World Event).
Proof.
  intros HP. revert ev. induction callbacks as [|cb rest IH]; intros ev.
  - apply emits_ret.
  - intros st. cbn [EventTarget.call_listeners].
    destruct (l_call cb ev (st_world st)) as [[[e|[]] ev'] w].
    + refine (emits_bind P (console "error" "Event Listener Exception")
                (λ _, EventTarget.call_listeners rest ev') _ _
                (mkState w (st_listeners st) (st_trace st))).
      * apply emits_emit, HP.
      * intros _. apply IH.
    + apply (IH ev' (mkState w (st_listeners st) (st_trace st))).
Qed.

Lemma emits_dispatchEvent P ev :
  P (EDispatch ev) → (∀ l s, P (EConsole l s)) →
  emits P (EventTarget.dispatchEvent ev : M World Event).
Proof.
  intros Hev HP. unfold EventTarget.dispatchEvent.
  apply emits_bind; [by apply emits_emit|]. intros _ st.
  destruct (st_listeners st) as [listeners|].
  - destruct (listeners !! ev_type ev) as [callbacks|].
    + by apply emits_call_listeners.
    + apply emits_throw.
  - apply emits_ret.
Qed.

(** Effects outside a class leave the projection of the trace on that
    class unchanged. *)
Lemma filter_none_new (f : Effect → bool) (t new : list Effect) :
  Forall (λ e, f e = false) new → filter f (t ++ new) = filter f t.
Proof.
  intros H. rewrite filter_app.
  replace (filter f new) with (@nil Effect); [by rewrite app_nil_r|].
  symmetry. induction H as [|e new He _ IH]; [done|].
  rewrite filter_cons. rewrite He. cbn. done.
Qed.

Lemma emits_preserves {A} (f : Effect → bool) (m : M World A) st :
  emits (λ e, f e = false) m →
  filter f (st_trace (m st).2) = filter f (st_trace st).
Proof.
  intros Hm. destruct (Hm st) as (new & -> & Hnew). by apply filter_none_new.
Qed.

Lemma no_counter_ret {A} (a : A) : no_counter (ret a : M World A).
Proof. by intros st e st'. Qed.

Lemma no_counter_throw {A} e :
  ¬ counter_error e → no_counter (throw e : M World A).
Proof. intros He st e' st' [= <- _]. done. Qed.

Lemma no_counter_bind {A B} (m : M World A) (k : A → M World B) :
  no_counter m → (∀ a, no_counter (k a)) → no_counter (bind m k).
Proof.
  intros Hm Hk st e st'. unfold bind.
  destruct (m st) as [[e1|a] st1] eqn:Hrun.
  - intros [= <- <-]. by eapply Hm.
  - intros Hrun2. by eapply Hk.
Qed.

Lemma no_counter_emit e : no_counter (emit e : M World unit).
Proof. by intros st e' st'. Qed.

Lemma no_counter_call_listeners callbacks ev :
  no_counter (EventTarget.call_listeners callbacks ev : M World Event).
Proof.
  revert ev. induction callbacks as [|cb rest IH]; intros ev.
  - apply no_counter_ret.
  - intros st e st'. cbn [EventTarget.call_listeners].
    destruct (l_call cb ev (st_world st)) as [[[e1|[]] ev'] w].
    + refine (no_counter_bind (console "error" "Event Listener Exception")
                (λ _, EventTarget.call_listeners rest ev') _ _
                (mkState w (st_listeners st) (st_trace st)) e st').
      * apply no_counter_emit.
      * intros _. apply IH.
    + apply IH.
Qed.

Lemma no_counter_dispatchEvent ev :
  no_counter (EventTarget.dispatchEvent ev : M World Event).
Proof.
  unfold EventTarget.dispatchEvent.
  apply no_counter_bind; [apply no_counter_emit|]. intros _ st e st'.
  destruct (st_listeners st) as [listeners|].
  - destruct (listeners !! ev_type ev) as [callbacks|].
    + apply no_counter_call_listeners.
    + by apply no_counter_throw.
  - apply no_counter_ret.
Qed.

Lemma silent_of_no_counter {A} (m : M World A) :
  no_counter m → silent_on_counter m.
Proof. intros Hm st e st' Hrun He. by destruct (Hm _ _ _ Hrun). Qed.

Lemma silent_of_console {A} (m : M World A) :
  emits is_console m → silent_on_counter m.
Proof.
  intros Hm st e st' Hrun _.
  pose proof (emits_preserves is_dispatch m st) as H. rewrite Hrun in H.
  apply H. eapply emits_mono; [|exact Hm]. by intros [].
Qed.

Lemma silent_bind {A B} (m : M World A) (k : A → M World B) :
  emits is_console m → (∀ a, silent_on_counter (k a)) →
  silent_on_counter (bind m k).
Proof.
  intros Hm Hk st e st'. unfold bind.
  pose proof (emits_preserves is_dispatch m st) as Hpre.
  destruct (m st) as [[e1|a] st1] eqn:Hrun; cbn in Hpre.
  - intros [= <- <-] _. apply Hpre. eapply emits_mono; [|exact Hm]. by intros [].
  - intros Hrun2 He. unfold dispatched.
    rewrite <- Hpre; [by eapply Hk|].
    eapply emits_mono; [|exact Hm]. by intros [].
Qed.

End RunFacts.

(** ** The handlers of the receiver *)

Section ReceiverFacts.
Context {World : Type} (ext : Externals World) (this : Identity).
Implicit Types (st : State World) (envelope : Envelope).

Import MessageReceiver.

Lemma emits_console P level msg :
  P (EConsole level msg) → emits P (console level msg : M World unit).
Proof. apply emits_emit. Qed.

(** The state after [promise_all] is the state after the started calls,
    whichever promise is rejected first. *)
Lemma promise_all_start_all {A B} (f : A → M World B) xs st :
  (promise_all ext f xs st).2 = (start_all f xs st).2.
Proof.
  unfold promise_all. destruct (start_all f xs st) as [rs st'].
  by destruct (rejections rs).
Qed.

Lemma emits_start_all {A B} P (f : A → M World B) xs st :
  (∀ x, emits P (f x)) →
  ∃ new, st_trace (start_all f xs st).2 = st_trace st ++ new ∧ Forall P new.
Proof.
  intros Hf. revert st. induction xs as [|x rest IH]; intros st.
  - exists []. by rewrite app_nil_r.
  - cbn [start_all].
    destruct (Hf x st) as (new1 & Ht1 & Hn1).
    destruct (f x st) as [r st1]; cbn in *.
    destruct (IH st1) as (new2 & Ht2 & Hn2).
    destruct (start_all f rest st1) as [rs st2]; cbn in *.
    exists (new1 ++ new2). rewrite Ht2, Ht1, app_assoc. split; [done|].
    by apply Forall_app.
Qed.

Lemma emits_promise_all {A B} P (f : A → M World B) xs :
  (∀ x, emits P (f x)) → emits P (promise_all ext f xs).
Proof.
  intros Hf st. rewrite promise_all_start_all. by apply emits_start_all.
Qed.

(** One step of a proof that a computation emits only effects in a class. *)
Ltac emits_step :=
  match goal with
  | |- emits _ (ret _) => apply emits_ret
  | |- emits _ (throw _) => apply emits_throw
  | |- emits _ (lift _) => apply emits_lift
  | |- emits _ (call _) => apply emits_call
  | |- emits _ (console _ _) => apply emits_console; try done
  | |- emits _ (emit _) => apply emits_emit; try done
  | |- emits _ (bind _ _) => apply emits_bind; [|intros ?]
  | |- emits _ (try_catch _ _) => apply emits_try_catch; [|intros ?]
  | |- emits _ (try_finally _ _) => apply emits_try_finally
  | |- emits _ (promise_all _ _ _) => apply emits_promise_all; intros ?
  | |- emits _ (if ?b then _ else _) => destruct b
  | |- emits _ (match ?x with _ => _ end) => destruct x
  end.

Section Console.
Context (P : Effect → Prop) (HP : ∀ l s, P (EConsole l s)).

Lemma emits_decrypt envelope ciphertext :
  emits P (decrypt ext envelope ciphertext).
Proof using HP.
  unfold decrypt, decryptPreKeyWhisperMessage. repeat emits_step.
Qed.

Lemma emits_handleEndSession a : emits P (handleEndSession ext a).
Proof using HP. unfold handleEndSession. repeat emits_step. Qed.

Lemma emits_processDecrypted msg source :
  emits P (processDecrypted ext msg source).
Proof using HP.
  unfold processDecrypted, handleAttachment. repeat emits_step.
Qed.

End Console.

Lemma emits_handleDeliveryReceipt envelope :
  emits (handler_effect envelope)
    (handleDeliveryReceipt envelope : M World unit).
Proof.
  unfold handleDeliveryReceipt. repeat emits_step.
  by apply emits_dispatchEvent.
Qed.

Lemma emits_data_message message envelope :
  emits (data_message_effect envelope) (handleDataMessage ext message envelope).
Proof.
  unfold handleDataMessage.
  repeat first
    [ by apply emits_handleEndSession
    | by apply emits_processDecrypted
    | apply emits_dispatchEvent; cbn; by eauto
    | emits_step ].
Qed.

Lemma emits_handleDataMessage message envelope :
  emits (handler_effect envelope) (handleDataMessage ext message envelope).
Proof.
  eapply emits_mono; [|apply emits_data_message].
  intros [| ev | |]; cbn; try done.
  intros (Hacc & Hty & data & -> & Hkc). done.
Qed.

Lemma emits_handleSentMessage sent envelope :
  emits (handler_effect envelope) (handleSentMessage ext this sent envelope).
Proof.
  unfold handleSentMessage.
  repeat first
    [ by apply emits_handleEndSession
    | by apply emits_processDecrypted
    | by apply emits_dispatchEvent
    | emits_step ].
Qed.

Lemma emits_handleRead read envelope :
  emits (handler_effect envelope) (handleRead read envelope : M World unit).
Proof.
  induction read as [|x rest IH]; cbn [handleRead]; [apply emits_ret|].
  apply emits_bind; [|by intros _].
  by apply emits_dispatchEvent.
Qed.

Lemma emits_handleSyncMessage message envelope :
  emits (handler_effect envelope) (handleSyncMessage ext this message envelope).
Proof.
  unfold handleSyncMessage, handleBlocked.
  repeat first
    [ apply emits_handleSentMessage
    | apply emits_handleRead
    | emits_step ].
Qed.

Lemma emits_handleContentMessage envelope :
  emits (handler_effect envelope) (handleContentMessage ext this envelope).
Proof.
  unfold handleContentMessage.
  repeat first
    [ by apply emits_decrypt
    | apply emits_handleSyncMessage
    | apply emits_handleDataMessage
    | emits_step ].
Qed.

Lemma emits_handleLegacyMessage envelope :
  emits (handler_effect envelope) (handleLegacyMessage ext envelope).
Proof.
  unfold handleLegacyMessage.
  repeat first
    [ by apply emits_decrypt
    | apply emits_handleDataMessage
    | emits_step ].
Qed.

(** The three handlers [handleEnvelope] chooses from. *)
Lemma select_handler_cases envelope handler :
  select_handler ext this envelope = inr handler →
  handler = handleDeliveryReceipt ∨
  handler = handleContentMessage ext this ∨
  handler = handleLegacyMessage ext.
Proof.
  unfold select_handler. intros H.
  destruct (env_type envelope), (present (env_content envelope)),
    (present (env_legacyMessage envelope)); naive_solver.
Qed.

Lemma emits_selected_handler envelope handler :
  select_handler ext this envelope = inr handler →
  emits (handler_effect envelope) (handler envelope).
Proof.
  intros H. destruct (select_handler_cases _ _ H) as [->|[->| ->]].
  - apply emits_handleDeliveryReceipt.
  - apply emits_handleContentMessage.
  - apply emits_handleLegacyMessage.
Qed.

(** *** Sync messages *)

(** C7.  The guards of [handleSyncMessage]: a sync envelope whose source is
    not the receiver's own address fails with [ForeignSyncError]; one from
    the own address whose source device is the receiver's own device fails
    with [SelfSyncError]; in either case the state, and so the trace, is as
    before: no [message], [sent] or other event was dispatched. *)
Theorem handleSyncMessage_guards message envelope st :
  (env_source envelope ≠ addr this →
   handleSyncMessage ext this message envelope st = (inl ForeignSyncError, st)) ∧
  (env_source envelope = addr this →
   env_sourceDevice envelope = deviceId this →
   handleSyncMessage ext this message envelope st = (inl SelfSyncError, st)) ∧
  (env_source envelope ≠ addr this ∨ env_sourceDevice envelope = deviceId this →
   ∃ e, handleSyncMessage ext this message envelope st = (inl e, st) ∧
        (e = ForeignSyncError ∨ e = SelfSyncError) ∧
        dispatched (st_trace (handleSyncMessage ext this message envelope st).2)
          = dispatched (st_trace st)).
Proof.
  assert (Hforeign : env_source envelope ≠ addr this →
    handleSyncMessage ext this message envelope st = (inl ForeignSyncError, st)).
  { intros H. unfold handleSyncMessage. by rewrite bool_decide_eq_true_2. }
  assert (Hself : env_source envelope = addr this →
    env_sourceDevice envelope = deviceId this →
    handleSyncMessage ext this message envelope st = (inl SelfSyncError, st)).
  { intros H1 H2. unfold handleSyncMessage.
    rewrite bool_decide_eq_false_2 by (by intros []).
    by rewrite bool_decide_eq_true_2. }
  split; [done|]. split; [done|].
  intros Hguard.
  destruct (decide (env_source envelope = addr this)) as [Heq|Hne].
  - destruct Hguard as [?|Hdev]; [done|].
    exists SelfSyncError. rewrite (Hself Heq Hdev). by eauto.
  - exists ForeignSyncError. rewrite (Hforeign Hne). by eauto.
Qed.

(** Past its guards, [handleSyncMessage] is the chain of tests of the
    source. *)
Lemma handleSyncMessage_past_guards message envelope st :
  env_source envelope = addr this →
  env_sourceDevice envelope ≠ deviceId this →
  handleSyncMessage ext this message envelope st =
    match sync_sent message with
    | Some sent => handleSentMessage ext this sent envelope st
    | None =>
        match nonempty_read message with
        | Some read => handleRead read envelope st
        | None =>
            if present (sync_contacts message) then
              (inl DeprecatedContactSync,
               logged (EConsole "error" "Deprecated contact sync message:") st)
            else if present (sync_groups message) then
              (inl DeprecatedGroupSync,
               logged (EConsole "error" "Deprecated group sync message:") st)
            else if present (sync_blocked message) then
              (inl Unsupported, st)
            else if present (sync_request message) then
              (inl DeprecatedRequestSync,
               logged (EConsole "error" "Deprecated group request sync message:") st)
            else
              (inl EmptySync, logged (EConsole "error" "Empty sync message:") st)
        end
    end.
Proof.
  intros Hsrc Hdev. unfold handleSyncMessage.
  rewrite bool_decide_eq_false_2 by (by intros []).
  rewrite bool_decide_eq_false_2 by done.
  destruct (sync_sent message); [done|].
  destruct (nonempty_read message); [done|].
  destruct (sync_contacts message); [done|].
  destruct (sync_groups message); [done|].
  destruct (sync_blocked message); [done|].
  by destruct (sync_request message).
Qed.

(** C3, as the code has it.  Past the guards the variants of a sync message
    are tried in this order, first match wins: [sent]; a non-empty [read];
    [contacts] (deprecated); [groups] (deprecated); [blocked]
    ([Unsupported]); [request] (deprecated); else [EmptySync].  So a message
    with [blocked] and [contacts] or [groups] fails as a deprecated sync, and
    [blocked] only wins over [request]. *)
Theorem handleSyncMessage_dispatch_order message envelope st :
  env_source envelope = addr this →
  env_sourceDevice envelope ≠ deviceId this →
  let run := handleSyncMessage ext this message envelope st in
  (∀ sent, sync_sent message = Some sent →
     run = handleSentMessage ext this sent envelope st) ∧
  (∀ read, sync_sent message = None → nonempty_read message = Some read →
     run = handleRead read envelope st) ∧
  (sync_sent message = None → nonempty_read message = None →
     (present (sync_contacts message) = true →
        run.1 = inl DeprecatedContactSync) ∧
     (present (sync_contacts message) = false →
      present (sync_groups message) = true →
        run.1 = inl DeprecatedGroupSync) ∧
     (present (sync_contacts message) = false →
      present (sync_groups message) = false →
      present (sync_blocked message) = true →
        run = (inl Unsupported, st)) ∧
     (present (sync_contacts message) = false →
      present (sync_groups message) = false →
      present (sync_blocked message) = false →
      present (sync_request message) = true →
        run.1 = inl DeprecatedRequestSync) ∧
     (present (sync_contacts message) = false →
      present (sync_groups message) = false →
      present (sync_blocked message) = false →
      present (sync_request message) = false →
        run.1 = inl EmptySync)).
Proof.
  intros Hsrc Hdev run. subst run.
  rewrite handleSyncMessage_past_guards by done.
  split; [by intros sent ->|].
  split; [by intros read -> ->|].
  intros -> ->.
  repeat split; intros; repeat match goal with H : present _ = _ |- _ =>
    rewrite H; clear H end; done.
Qed.

(** *** Data messages *)

Lemma bind_inr {A B} (m : M World A) (k : A → M World B) st b st' :
  bind m k st = (inr b, st') →
  ∃ a st1, m st = (inr a, st1) ∧ k a st1 = (inr b, st').
Proof.
  unfold bind. destruct (m st) as [[e|a] st1]; [done|]. by eauto.
Qed.

Lemma dispatchEvent_dispatched ev st :
  dispatched (st_trace (dispatchEvent ev st).2)
    = dispatched (st_trace st) ++ [EDispatch ev].
Proof.
  unfold EventTarget.dispatchEvent, bind, emit. cbn.
  set (st1 := mkState _ _ (st_trace st ++ [EDispatch ev])).
  assert (H1 : dispatched (st_trace st1)
               = dispatched (st_trace st) ++ [EDispatch ev]).
  { unfold dispatched. cbn. by rewrite filter_app. }
  destruct (st_listeners st) as [listeners|]; [|done].
  destruct (listeners !! ev_type ev) as [callbacks|]; [|done].
  rewrite <- H1. apply (emits_preserves is_dispatch).
  apply emits_call_listeners. done.
Qed.

(** A normal return of [handleDataMessage] has dispatched one event. *)
Lemma handleDataMessage_dispatches_once message envelope st st' :
  handleDataMessage ext message envelope st = (inr tt, st') →
  ∃ ev, dispatched (st_trace st') = dispatched (st_trace st) ++ [EDispatch ev].
Proof.
  unfold handleDataMessage. intros Hrun.
  apply bind_inr in Hrun as (u & st1 & Hend & Hrun).
  apply bind_inr in Hrun as (message' & st2 & Hproc & Hrun).
  apply bind_inr in Hrun as (ev' & st3 & Hdis & Hret).
  injection Hret as <-.
  match type of Hdis with dispatchEvent ?ev _ = _ =>
    exists ev; pose proof (dispatchEvent_dispatched ev st2) as H3 end.
  rewrite Hdis in H3. cbn in H3. rewrite H3. f_equal.
  pose proof (emits_preserves is_dispatch
                (processDecrypted ext message (env_source envelope)) st1) as H2.
  rewrite Hproc in H2. cbn in H2. unfold dispatched. rewrite H2
    by (by apply emits_processDecrypted).
  match type of Hend with ?m st = _ =>
    pose proof (emits_preserves is_dispatch m st) as H1 end.
  rewrite Hend in H1. cbn in H1. apply H1.
  destruct (truthy _); [by apply emits_handleEndSession | apply emits_ret].
Qed.

(** An envelope decoded from a frame has no [keyChange] property. *)
Lemma decodeFrame_keyChange request envelope :
  decodeFrame ext this request = inr envelope → env_keyChange envelope = None.
Proof.
  unfold decodeFrame.
  destruct (decryptWebsocketMessage ext _ _) as [e|data]; [done|].
  destruct (Envelope_decode ext data) as [e|w]; [done|].
  by intros [= <-].
Qed.

(** C8, as the code has it.  The [message] event of [handleDataMessage]
    carries the envelope's [keyChange] property as it is.  While the
    dispatcher has not set that property it is undefined, and so is the
    payload's [keyChange]: it is neither [false] nor [true].  All events
    [handleDataMessage] dispatches are such [message] events, and a normal
    return has dispatched exactly one. *)
Theorem message_event_keyChange message envelope st :
  env_keyChange envelope = None →
  let run := handleDataMessage ext message envelope st in
  ∃ new,
    st_trace run.2 = st_trace st ++ new ∧
    (∀ ev, EDispatch ev ∈ new →
       ∃ data, ev_type ev = "message" ∧ ev_fields ev = MessageFields data ∧
               md_keyChange data = None ∧
               md_keyChange data ≠ Some false ∧ md_keyChange data ≠ Some true) ∧
    (run.1 = inr tt → ∃ ev, dispatched new = [EDispatch ev]).
Proof.
  intros Hkc run.
  destruct (emits_data_message message envelope st) as (new & Ht & Hnew).
  exists new. split; [done|]. split.
  - intros ev Hin.
    rewrite Forall_forall in Hnew. specialize (Hnew _ Hin). cbn in Hnew.
    destruct Hnew as (_ & Hty & data & Hf & Hd). rewrite Hkc in Hd.
    exists data. rewrite Hd. done.
  - intros Hok. subst run.
    destruct (handleDataMessage ext message envelope st) as [r st'] eqn:Hrun.
    cbn in *. subst r.
    apply handleDataMessage_dispatches_once in Hrun as [ev Hev].
    exists ev. rewrite Ht in Hev. unfold dispatched in *.
    rewrite filter_app in Hev. by apply app_inv_head in Hev.
Qed.

(** *** Counter errors come before any event *)

Lemma no_counter_console level msg :
  no_counter (console level msg : M World unit).
Proof. apply no_counter_emit. Qed.

Lemma no_counter_handleRead read envelope :
  no_counter (handleRead read envelope : M World unit).
Proof.
  induction read as [|x rest IH]; cbn [handleRead]; [apply no_counter_ret|].
  apply no_counter_bind; [apply no_counter_dispatchEvent | by intros _].
Qed.

Lemma no_counter_dispatch_tail ev :
  no_counter (dispatchEvent ev ;;; ret tt : M World unit).
Proof.
  apply no_counter_bind; [apply no_counter_dispatchEvent|].
  intros _. apply no_counter_ret.
Qed.

Lemma no_counter_console_throw level msg e :
  ¬ counter_error e →
  no_counter (console level msg ;;; throw e : M World unit).
Proof.
  intros He. apply no_counter_bind; [apply no_counter_console|].
  intros _. by apply no_counter_throw.
Qed.

Lemma silent_handleDataMessage message envelope :
  silent_on_counter (handleDataMessage ext message envelope).
Proof.
  unfold handleDataMessage.
  apply silent_bind.
  { destruct (truthy _); [by apply emits_handleEndSession | apply emits_ret]. }
  intros _. apply silent_bind; [by apply emits_processDecrypted|].
  intros message'. apply silent_of_no_counter, no_counter_dispatch_tail.
Qed.

Lemma silent_handleSentMessage sent envelope :
  silent_on_counter (handleSentMessage ext this sent envelope).
Proof.
  unfold handleSentMessage. destruct (sent_message sent) as [message|].
  - apply silent_bind.
    { destruct (truthy _); [by apply emits_handleEndSession | apply emits_ret]. }
    intros _. apply silent_bind; [by apply emits_processDecrypted|].
    intros message'. apply silent_of_no_counter, no_counter_dispatch_tail.
  - by apply silent_of_no_counter, no_counter_throw.
Qed.

Lemma silent_handleSyncMessage message envelope :
  silent_on_counter (handleSyncMessage ext this message envelope).
Proof.
  unfold handleSyncMessage, handleBlocked.
  repeat match goal with
  | |- silent_on_counter (if ?b then _ else _) => destruct b
  | |- silent_on_counter (match ?x with _ => _ end) => destruct x
  | |- silent_on_counter (throw _) =>
      by apply silent_of_no_counter, no_counter_throw
  | |- silent_on_counter (bind (console _ _) _) =>
      by apply silent_of_no_counter, no_counter_console_throw
  | |- silent_on_counter (handleSentMessage _ _ _ _) =>
      apply silent_handleSentMessage
  | |- silent_on_counter (handleRead _ _) =>
      apply silent_of_no_counter, no_counter_handleRead
  end.
Qed.

Lemma silent_handleContentMessage envelope :
  silent_on_counter (handleContentMessage ext this envelope).
Proof.
  unfold handleContentMessage.
  apply silent_bind; [by apply emits_decrypt|]. intros data.
  apply silent_bind; [apply emits_lift|]. intros content.
  destruct (content_syncMessage content); [apply silent_handleSyncMessage|].
  destruct (content_dataMessage content); [apply silent_handleDataMessage|].
  by apply silent_of_no_counter, no_counter_throw.
Qed.

Lemma silent_handleLegacyMessage envelope :
  silent_on_counter (handleLegacyMessage ext envelope).
Proof.
  unfold handleLegacyMessage.
  apply silent_bind; [by apply emits_decrypt|]. intros data.
  apply silent_bind; [apply emits_lift|]. intros message.
  apply silent_handleDataMessage.
Qed.

Lemma silent_selected_handler envelope handler :
  select_handler ext this envelope = inr handler →
  silent_on_counter (handler envelope).
Proof.
  intros H. destruct (select_handler_cases _ _ H) as [->|[->| ->]].
  - apply silent_of_no_counter, no_counter_dispatch_tail.
  - apply silent_handleContentMessage.
  - apply silent_handleLegacyMessage.
Qed.

(** *** [handleEnvelope] *)

(** With [reentrant] true the catch block does not call the function
    again. *)
Lemma handleEnvelope_catch_reentrant
    (self1 self2 : Envelope → bool → M World unit) envelope e st :
  handleEnvelope_catch self1 envelope true e st =
  handleEnvelope_catch self2 envelope true e st.
Proof.
  unfold handleEnvelope_catch. by rewrite andb_false_r.
Qed.

Lemma handleEnvelope_body_reentrant self1 self2 envelope st :
  handleEnvelope_body ext this self1 envelope true st =
  handleEnvelope_body ext this self2 envelope true st.
Proof.
  unfold handleEnvelope_body, bind, try_catch, emit, lift. cbn.
  destruct (select_handler ext this envelope) as [e|handler]; [done|].
  destruct (handler envelope _) as [[e|[]] st1]; [|done].
  apply handleEnvelope_catch_reentrant.
Qed.

(** The body only ever calls [self] with [reentrant] true. *)
Lemma handleEnvelope_body_ext self1 self2 envelope reentrant st :
  (∀ envelope' st', self1 envelope' true st' = self2 envelope' true st') →
  handleEnvelope_body ext this self1 envelope reentrant st =
  handleEnvelope_body ext this self2 envelope reentrant st.
Proof.
  intros Hself.
  unfold handleEnvelope_body, bind, try_catch, emit, lift. cbn.
  destruct (select_handler ext this envelope) as [e|handler]; [done|].
  destruct (handler envelope _) as [[e|[]] st1]; [|done].
  unfold handleEnvelope_catch, bind.
  destruct (bool_decide _); [done|].
  destruct (_ && _); [|done].
  destruct (dispatchEvent _ st1) as [[e'|ev] st2]; [done|].
  destruct (ev_accepted ev); [apply Hself | done].
Qed.

(** The recursive equation of the source: [handleEnvelope] is its body
    with itself as the recursive call. *)
Lemma handleEnvelope_unfold envelope reentrant st :
  handleEnvelope ext this envelope reentrant st =
  handleEnvelope_body ext this (handleEnvelope ext this) envelope reentrant st.
Proof.
  unfold handleEnvelope at 1. apply handleEnvelope_body_ext.
  intros envelope' st'. unfold handleEnvelope.
  apply handleEnvelope_body_reentrant.
Qed.

(** [handleEnvelope] in terms of the outcome of the selected handler. *)
Lemma handleEnvelope_run envelope reentrant st :
  handleEnvelope ext this envelope reentrant st =
    let st0 := logged (EHandleEnvelope envelope reentrant) st in
    match select_handler ext this envelope with
    | inl e => (inl e, st0)
    | inr handler =>
        match handler envelope st0 with
        | (inr u, st1) => (inr u, st1)
        | (inl e, st1) =>
            handleEnvelope_catch (handleEnvelope ext this)
              envelope reentrant e st1
        end
    end.
Proof.
  rewrite handleEnvelope_unfold.
  unfold handleEnvelope_body, bind, try_catch, emit, lift, logged. cbn.
  by destruct (select_handler ext this envelope).
Qed.

Lemma emits_handleEnvelope_catch P (self : Envelope → bool → M World unit)
    envelope reentrant e :
  (∀ l s, P (EConsole l s)) → (∀ ev, P (EDispatch ev)) →
  (∀ envelope', emits P (self envelope' true)) →
  emits P (handleEnvelope_catch self envelope reentrant e).
Proof.
  intros Hc Hd Hself. unfold handleEnvelope_catch.
  repeat first
    [ by apply emits_dispatchEvent
    | apply Hself
    | emits_step ].
Qed.

Lemma emits_handleEnvelope_body P self envelope reentrant :
  (∀ l s, P (EConsole l s)) → (∀ ev, P (EDispatch ev)) →
  P (EHandleEnvelope envelope reentrant) →
  (∀ envelope', emits P (self envelope' true)) →
  emits P (handleEnvelope_body ext this self envelope reentrant).
Proof.
  intros Hc Hd He Hself. unfold handleEnvelope_body.
  apply emits_bind; [by apply emits_emit|]. intros _ st.
  unfold bind, lift.
  destruct (select_handler ext this envelope) as [e|handler] eqn:Hsel.
  { apply emits_throw. }
  apply emits_try_catch.
  - eapply emits_mono; [|by apply emits_selected_handler].
    intros [| ev | |]; cbn; done.
  - intros e. by apply emits_handleEnvelope_catch.
Qed.

(** [handleEnvelope] makes no [respond] call. *)
Lemma handleEnvelope_no_respond envelope reentrant :
  emits (λ e, is_respond e = false) (handleEnvelope ext this envelope reentrant).
Proof.
  unfold handleEnvelope.
  apply emits_handleEnvelope_body; try done.
  intros envelope'. apply emits_handleEnvelope_body; try done.
  intros _. apply emits_ret.
Qed.

Lemma not_reentry_of_handler_effect envelope e :
  handler_effect envelope e → is_reentry e = false.
Proof. by destruct e. Qed.

(** Identity re-entry is bounded.  A run with [reentrant] true records its
    own activation and no other. *)
Lemma handleEnvelope_reentrant_once envelope st :
  reentries (st_trace (handleEnvelope ext this envelope true st).2)
    = reentries (st_trace st) ++ [EHandleEnvelope envelope true].
Proof.
  rewrite handleEnvelope_run. cbn zeta.
  set (st0 := logged (EHandleEnvelope envelope true) st).
  assert (H0 : reentries (st_trace st0)
               = reentries (st_trace st) ++ [EHandleEnvelope envelope true]).
  { unfold reentries. cbn. by rewrite filter_app. }
  destruct (select_handler ext this envelope) as [e|handler] eqn:Hsel; [done|].
  pose proof (emits_preserves is_reentry (handler envelope) st0) as Hh.
  destruct (handler envelope st0) as [[e|u] st1]; cbn [snd] in Hh.
  - rewrite (handleEnvelope_catch_reentrant _ (λ _ _, ret tt)).
    rewrite <- H0. unfold reentries. rewrite <- Hh.
    + apply (emits_preserves is_reentry).
      apply emits_handleEnvelope_catch; try done. intros _. apply emits_ret.
    + eapply emits_mono; [|by apply emits_selected_handler].
      apply not_reentry_of_handler_effect.
  - cbn. rewrite <- H0. apply Hh.
    eapply emits_mono; [|by apply emits_selected_handler].
    apply not_reentry_of_handler_effect.
Qed.

(** A run with [reentrant] false records at most one activation with
    [reentrant] true, and that one works on the envelope with [keyChange]
    set. *)
Lemma handleEnvelope_reentry_bounded envelope st :
  let t := st_trace (handleEnvelope ext this envelope false st).2 in
  reentries t = reentries (st_trace st) ∨
  reentries t = reentries (st_trace st)
                  ++ [EHandleEnvelope (set_keyChange true envelope) true].
Proof.
  cbn zeta. rewrite handleEnvelope_run. cbn zeta.
  set (st0 := logged (EHandleEnvelope envelope false) st).
  assert (H0 : reentries (st_trace st0) = reentries (st_trace st)).
  { unfold reentries. cbn. rewrite filter_app. cbn. by rewrite app_nil_r. }
  destruct (select_handler ext this envelope) as [e|handler] eqn:Hsel;
    [by left|].
  pose proof (emits_preserves is_reentry (handler envelope) st0) as Hh.
  assert (Hh' : emits (λ e, is_reentry e = false) (handler envelope)).
  { eapply emits_mono; [|by apply emits_selected_handler].
    apply not_reentry_of_handler_effect. }
  specialize (Hh Hh'). clear Hh'.
  destruct (handler envelope st0) as [[e|u] st1]; cbn [snd] in Hh;
    [|left; cbn; unfold reentries; by rewrite Hh].
  fold (reentries (st_trace st1)) in Hh. fold (reentries (st_trace st0)) in Hh.
  rewrite <- H0, <- Hh.
  unfold handleEnvelope_catch.
  destruct (bool_decide _).
  { left. unfold bind, console, emit, ret, reentries. cbn.
    rewrite filter_app. cbn. by rewrite app_nil_r. }
  destruct (_ && _).
  2:{ left. apply (emits_preserves is_reentry).
      repeat first [ by apply emits_dispatchEvent | emits_step ]. }
  unfold bind.
  pose proof (emits_preserves is_reentry
    (dispatchEvent (new_Event "keychange"
       (KeychangeFields (err_addr e) (err_identityKey e)))) st1) as Hd.
  destruct (dispatchEvent _ st1) as [[e'|ev] st2]; cbn [snd] in Hd.
  - left. apply Hd. by apply emits_dispatchEvent.
  - fold (reentries (st_trace st2)) in Hd. fold (reentries (st_trace st1)) in Hd.
    rewrite <- Hd by (by apply emits_dispatchEvent).
    destruct (ev_accepted ev); [right|by left].
    apply handleEnvelope_reentrant_once.
Qed.

Lemma dispatchEvent_dispatched_of type ev st :
  dispatched_of type (st_trace (dispatchEvent ev st).2)
    = dispatched_of type (st_trace st)
        ++ (if bool_decide (ev_type ev = type) then [EDispatch ev] else []).
Proof.
  unfold EventTarget.dispatchEvent, bind, emit. cbn.
  set (st1 := mkState _ _ (st_trace st ++ [EDispatch ev])).
  assert (H1 : dispatched_of type (st_trace st1)
               = dispatched_of type (st_trace st)
                   ++ (if bool_decide (ev_type ev = type)
                       then [EDispatch ev] else [])).
  { unfold dispatched_of. cbn. rewrite filter_app. f_equal.
    rewrite filter_cons. cbn. by destruct (bool_decide _). }
  destruct (st_listeners st) as [listeners|]; [|done].
  destruct (listeners !! ev_type ev) as [callbacks|]; [|done].
  rewrite <- H1. apply (emits_preserves (is_dispatch_of type)).
  apply emits_call_listeners. done.
Qed.

Lemma not_keychange_of_handler_effect envelope e :
  handler_effect envelope e → is_dispatch_of "keychange" e = false.
Proof.
  destruct e as [| ev | |]; cbn; try done.
  intros [_ H]. apply bool_decide_eq_false_2.
  destruct (ev_fields ev); try done; destruct_and?;
    match goal with H : ev_type ev = _ |- _ => rewrite H end; discriminate.
Qed.

(** A re-entered activation dispatches no [keychange] event. *)
Lemma handleEnvelope_reentrant_no_keychange envelope st :
  dispatched_of "keychange"
    (st_trace (handleEnvelope ext this envelope true st).2)
    = dispatched_of "keychange" (st_trace st).
Proof.
  rewrite handleEnvelope_run. cbn zeta.
  set (st0 := logged (EHandleEnvelope envelope true) st).
  assert (H0 : dispatched_of "keychange" (st_trace st0)
               = dispatched_of "keychange" (st_trace st)).
  { unfold dispatched_of. cbn. rewrite filter_app. cbn. by rewrite app_nil_r. }
  destruct (select_handler ext this envelope) as [e|handler] eqn:Hsel; [done|].
  pose proof (emits_preserves (is_dispatch_of "keychange")
                (handler envelope) st0) as Hh.
  assert (Hh' : emits (λ e, is_dispatch_of "keychange" e = false)
                  (handler envelope)).
  { eapply emits_mono; [|by apply emits_selected_handler].
    apply not_keychange_of_handler_effect. }
  specialize (Hh Hh'). clear Hh'.
  fold (dispatched_of "keychange" (st_trace st0)) in Hh.
  destruct (handler envelope st0) as [[e|u] st1]; cbn [snd] in Hh.
  - rewrite <- H0, <- Hh.
    apply (emits_preserves (is_dispatch_of "keychange")).
    unfold handleEnvelope_catch. rewrite andb_false_r.
    repeat first [ by apply emits_dispatchEvent | emits_step ].
  - cbn [snd]. by rewrite <- H0, <- Hh.
Qed.

(** After an identity-key error of a first activation exactly one
    [keychange] event has been dispatched when [handleEnvelope] ends. *)
Lemma handleEnvelope_keychange_once envelope handler e st st1 :
  select_handler ext this envelope = inr handler →
  handler envelope (logged (EHandleEnvelope envelope false) st) = (inl e, st1) →
  ¬ counter_error e →
  err_isIncomingIdentityKeyError e = true →
  dispatched_of "keychange"
    (st_trace (handleEnvelope ext this envelope false st).2)
    = dispatched_of "keychange" (st_trace st)
        ++ [EDispatch (new_Event "keychange"
                         (KeychangeFields (err_addr e) (err_identityKey e)))].
Proof.
  intros Hsel Hrun Hname Hik.
  rewrite handleEnvelope_run. cbn zeta. rewrite Hsel, Hrun.
  unfold handleEnvelope_catch.
  rewrite bool_decide_eq_false_2 by done. rewrite Hik. cbn [negb andb].
  assert (H1 : dispatched_of "keychange" (st_trace st1)
               = dispatched_of "keychange" (st_trace st)).
  { pose proof (emits_preserves (is_dispatch_of "keychange")
                  (handler envelope)
                  (logged (EHandleEnvelope envelope false) st)) as Hh.
    rewrite Hrun in Hh. cbn [snd] in Hh. unfold dispatched_of.
    rewrite Hh.
    - cbn. rewrite filter_app. cbn. by rewrite app_nil_r.
    - eapply emits_mono; [|by apply emits_selected_handler].
      apply not_keychange_of_handler_effect. }
  unfold bind.
  pose proof (dispatchEvent_dispatched_of "keychange"
    (new_Event "keychange" (KeychangeFields (err_addr e) (err_identityKey e)))
    st1) as Hd.
  rewrite bool_decide_eq_true_2 in Hd by done. rewrite H1 in Hd.
  destruct (dispatchEvent _ st1) as [[e'|ev] st2]; cbn [snd] in Hd; [done|].
  destruct (ev_accepted ev); [|done].
  by rewrite handleEnvelope_reentrant_no_keychange.
Qed.

(** The catch block on an identity-key error of a first activation: one
    [keychange] event is dispatched; when it comes back accepted the
    envelope is re-dispatched once with [keyChange] set; when it comes back
    not accepted the error is dropped; when the dispatch itself throws,
    that error escapes. *)
Lemma handleEnvelope_identity_key_error envelope handler e st st1 :
  select_handler ext this envelope = inr handler →
  handler envelope (logged (EHandleEnvelope envelope false) st) = (inl e, st1) →
  ¬ counter_error e →
  err_isIncomingIdentityKeyError e = true →
  handleEnvelope ext this envelope false st =
    match dispatchEvent
            (new_Event "keychange"
               (KeychangeFields (err_addr e) (err_identityKey e))) st1 with
    | (inr ev, st2) =>
        if ev_accepted ev
        then handleEnvelope ext this (set_keyChange true envelope) true st2
        else (inr tt, st2)
    | (inl e', st2) => (inl e', st2)
    end.
Proof.
  intros Hsel Hrun Hname Hik.
  rewrite handleEnvelope_run. cbn zeta. rewrite Hsel, Hrun.
  unfold handleEnvelope_catch.
  rewrite bool_decide_eq_false_2 by done. rewrite Hik. cbn [negb andb].
  unfold bind.
  destruct (dispatchEvent _ st1) as [[e'|ev] st2]; [done|].
  by destruct (ev_accepted ev).
Qed.

(** On a target with listeners but no [keychange] list the dispatch of the
    [keychange] event throws, and [handleEnvelope] fails with that error. *)
Lemma handleEnvelope_keychange_undefined_list envelope handler e st st1 listeners :
  select_handler ext this envelope = inr handler →
  handler envelope (logged (EHandleEnvelope envelope false) st) = (inl e, st1) →
  ¬ counter_error e →
  err_isIncomingIdentityKeyError e = true →
  st_listeners st1 = Some listeners →
  listeners !! "keychange" = None →
  (handleEnvelope ext this envelope false st).1 = inl EventTarget.not_iterable.
Proof.
  intros Hsel Hrun Hname Hik Hl Hnone.
  rewrite (handleEnvelope_identity_key_error _ _ _ _ _ Hsel Hrun Hname Hik).
  by rewrite (dispatchEvent_undefined_list st1
    (new_Event "keychange" (KeychangeFields (err_addr e) (err_identityKey e)))
    listeners Hl Hnone).
Qed.

(** A PUT request for [/api/v1/message] is decoded; the outcome of the decoding
    selects the answer. *)
Lemma handleRequest_accepted request st :
  req_verb request = "PUT" → req_path request = "/api/v1/message" →
  handleRequest ext this request st =
    match decodeFrame ext this request with
    | inl e =>
        (respond 500 "Bad encrypted websocket message" ;;;
         console "error" "Error handling incoming message:" ;;;
         dispatchEvent (new_Event "error" (ErrorFields e None)) ;;;
         throw e) st
    | inr envelope =>
        try_finally (handleEnvelope ext this envelope false)
                    (respond 200 "OK") st
    end.
Proof.
  intros Hverb Hpath. unfold handleRequest.
  rewrite (bool_decide_eq_false_2 (req_path request ≠ _))
    by (intros H; by apply H).
  rewrite (bool_decide_eq_false_2 (req_verb request ≠ _))
    by (intros H; by apply H).
  cbn [orb]. by destruct (decodeFrame ext this request).
Qed.

(** C9.  When the handler selected for an envelope fails with a
    [MessageCounterError], [handleEnvelope] logs a warning and returns
    normally; no event has been dispatched for the envelope, neither by the
    handler before it failed nor by the dispatcher; and [handleRequest],
    when the envelope came in a request, answers [200 OK] and returns
    normally. *)
Theorem handleEnvelope_counter_error envelope reentrant handler e st st1 :
  select_handler ext this envelope = inr handler →
  handler envelope (logged (EHandleEnvelope envelope reentrant) st)
    = (inl e, st1) →
  counter_error e →
  let final := logged (EConsole "warn" "Ignoring MessageCounterError for:") st1 in
  handleEnvelope ext this envelope reentrant st = (inr tt, final) ∧
  dispatched (st_trace final) = dispatched (st_trace st) ∧
  (∀ request,
     req_verb request = "PUT" → req_path request = "/api/v1/message" →
     decodeFrame ext this request = inr envelope → reentrant = false →
     handleRequest ext this request st
       = (inr tt, logged (ERespond 200 "OK") final)).
Proof.
  intros Hsel Hrun He final.
  assert (Henv : handleEnvelope ext this envelope reentrant st = (inr tt, final)).
  { rewrite handleEnvelope_run. cbn zeta. rewrite Hsel, Hrun.
    unfold handleEnvelope_catch. by rewrite bool_decide_eq_true_2. }
  split; [done|]. split.
  - pose proof (silent_selected_handler _ _ Hsel _ _ _ Hrun He) as Hs.
    unfold final, logged, dispatched in *. cbn in *.
    rewrite filter_app. cbn. rewrite app_nil_r. rewrite Hs.
    rewrite filter_app. cbn. by rewrite app_nil_r.
  - intros request Hverb Hpath Hdec ->.
    rewrite handleRequest_accepted, Hdec by done.
    unfold try_finally. by rewrite Henv.
Qed.

(** *** [handleRequest] *)

Lemma call_listeners_returns callbacks ev st :
  ∃ ev' st', EventTarget.call_listeners callbacks ev st = (inr ev', st').
Proof.
  revert ev st. induction callbacks as [|cb rest IH]; intros ev st.
  - by eexists _, _.
  - cbn [EventTarget.call_listeners].
    destruct (l_call cb ev (st_world st)) as [[[e|[]] ev'] w]; [|apply IH].
    unfold bind, console, emit. cbn. apply IH.
Qed.

(** The only error [dispatchEvent] throws is that of the undefined
    listener list. *)
Lemma dispatchEvent_throws ev st e st' :
  dispatchEvent ev st = (inl e, st') → e = EventTarget.not_iterable.
Proof.
  unfold EventTarget.dispatchEvent, bind, emit. cbn.
  destruct (st_listeners st) as [listeners|]; [|done].
  destruct (listeners !! ev_type ev) as [callbacks|].
  - match goal with |- EventTarget.call_listeners _ _ ?s = _ → _ =>
      destruct (call_listeners_returns callbacks ev s) as (ev' & st2 & ->) end.
    done.
  - by intros [= <- _].
Qed.

Lemma dispatchEvent_responses ev st :
  responses (st_trace (dispatchEvent ev st).2) = responses (st_trace st).
Proof.
  apply (emits_preserves is_respond). by apply emits_dispatchEvent.
Qed.

(** C2, as the code has it.  A request whose verb is not PUT or whose path
    is not [/api/v1/message] is logged and fails with [BadTransportRequest];
    [handleRequest] makes no [respond] call on it. *)
Theorem handleRequest_bad_request request st :
  req_verb request ≠ "PUT" ∨ req_path request ≠ "/api/v1/message" →
  handleRequest ext this request st =
    (inl BadTransportRequest,
     logged (EConsole "error" "Expected PUT /message instead of:") st) ∧
  responses (st_trace (handleRequest ext this request st).2)
    = responses (st_trace st).
Proof.
  intros Hbad.
  assert (Hrun : handleRequest ext this request st =
    (inl BadTransportRequest,
     logged (EConsole "error" "Expected PUT /message instead of:") st)).
  { unfold handleRequest.
    destruct (decide (req_path request = "/api/v1/message")) as [Hp|Hp].
    - destruct Hbad as [Hv|?]; [|done].
      rewrite (bool_decide_eq_true_2 (req_verb request ≠ "PUT")) by done.
      by rewrite orb_true_r.
    - by rewrite bool_decide_eq_true_2. }
  split; [done|]. rewrite Hrun. unfold responses, logged. cbn.
  rewrite filter_app. cbn. by rewrite app_nil_r.
Qed.

(** The catch block of [handleRequest]. *)
Lemma handleRequest_decode_failure e st :
  let ev := new_Event "error" (ErrorFields e None) in
  let st2 := logged (EConsole "error" "Error handling incoming message:")
               (logged (ERespond 500 "Bad encrypted websocket message") st) in
  (respond 500 "Bad encrypted websocket message" ;;;
   console "error" "Error handling incoming message:" ;;;
   dispatchEvent ev ;;;
   (throw e : M World unit)) st =
    match dispatchEvent ev st2 with
    | (inr _, st3) => (inl e, st3)
    | (inl e', st3) => (inl e', st3)
    end.
Proof.
  cbn zeta. unfold bind, respond, console, emit, throw, logged.
  cbn [st_world st_listeners st_trace].
  match goal with |- context [dispatchEvent ?ev ?s] =>
    by destruct (dispatchEvent ev s) as [[e'|ev'] st3] end.
Qed.

(** C1, as the code has it.  For a request with verb PUT and path
    [/api/v1/message]: when its frame decodes, [handleRequest] makes exactly
    one [respond] call, with status 200, and ends as [handleEnvelope] ends,
    whatever error that is; when the decoding fails, it makes exactly one
    [respond] call, with status 500, dispatches one [error] event carrying
    the decoding error, and fails: with the decoding error, or with the
    error of [dispatchEvent] when that throws. *)
Theorem handleRequest_ack_discipline request st :
  req_verb request = "PUT" → req_path request = "/api/v1/message" →
  let run := handleRequest ext this request st in
  match decodeFrame ext this request with
  | inr envelope =>
      run.1 = (handleEnvelope ext this envelope false st).1 ∧
      responses (st_trace run.2)
        = responses (st_trace st) ++ [ERespond 200 "OK"]
  | inl e =>
      responses (st_trace run.2)
        = responses (st_trace st)
            ++ [ERespond 500 "Bad encrypted websocket message"] ∧
      dispatched (st_trace run.2)
        = dispatched (st_trace st)
            ++ [EDispatch (new_Event "error" (ErrorFields e None))] ∧
      (run.1 = inl e ∨ run.1 = inl EventTarget.not_iterable) ∧
      (st_listeners st = None → run.1 = inl e)
  end.
Proof.
  intros Hverb Hpath run. subst run.
  rewrite handleRequest_accepted by done.
  destruct (decodeFrame ext this request) as [e|envelope].
  - rewrite handleRequest_decode_failure. cbn zeta.
    set (ev := new_Event "error" (ErrorFields e None)).
    set (st2 := logged _ (logged _ st)).
    assert (Hr2 : responses (st_trace st2) = responses (st_trace st)
              ++ [ERespond 500 "Bad encrypted websocket message"]).
    { unfold responses. cbn. rewrite !filter_app. cbn. by rewrite app_nil_r. }
    assert (Hd2 : dispatched (st_trace st2) = dispatched (st_trace st)).
    { unfold dispatched. cbn. rewrite !filter_app. cbn. by rewrite !app_nil_r. }
    assert (Hl2 : st_listeners st2 = st_listeners st) by done.
    pose proof (dispatchEvent_responses ev st2) as Hr.
    pose proof (dispatchEvent_dispatched ev st2) as Hd.
    pose proof (dispatchEvent_throws ev st2) as Ht.
    pose proof (dispatchEvent_no_listeners st2 ev) as Hn.
    rewrite Hr2 in Hr. rewrite Hd2 in Hd. rewrite Hl2 in Hn.
    clearbody st2.
    destruct (dispatchEvent ev st2) as [[e'|ev'] st3]; cbn [fst snd] in *.
    + repeat split; try done.
      * right. f_equal. by eapply Ht.
      * intros Hnone. by specialize (Hn Hnone).
    + repeat split; try done. by left.
  - unfold try_finally.
    pose proof (emits_preserves is_respond
                  (handleEnvelope ext this envelope false) st
                  (handleEnvelope_no_respond envelope false)) as Hr.
    destruct (handleEnvelope ext this envelope false st) as [r st1].
    cbn [fst snd respond emit st_trace] in *. split; [done|].
    unfold responses. rewrite filter_app. cbn. by rewrite Hr.
Qed.

End ReceiverFacts.

(** ** The concrete receiver at work *)

Section ConcreteRuns.
Import MessageReceiver.

(** Scenario: a key change the application accepts.  One [keychange]
    event, one re-entry, one [message] event with [keyChange] true. *)
Example key_change_accepted :
  let run := handleEnvelope Fixture.ext Fixture.this Fixture.prekey_envelope
               false Fixture.accepting in
  run.1 = inr tt ∧
  length (dispatched_of "keychange" (st_trace run.2)) = 1%nat ∧
  reentries (st_trace run.2)
    = [EHandleEnvelope (set_keyChange true Fixture.prekey_envelope) true] ∧
  ∃ data, dispatched_of "message" (st_trace run.2)
            = [EDispatch (new_Event "message" (MessageFields data))] ∧
          md_keyChange data = Some true.
Proof.
  cbn zeta. repeat split; try (vm_compute; reflexivity).
  eexists. split; vm_compute; reflexivity.
Qed.

(** Scenario: a key change on a target with no listener at all.  The
    [keychange] event is dispatched to nobody and the error is dropped. *)
Example key_change_ignored :
  let run := handleEnvelope Fixture.ext Fixture.this Fixture.prekey_envelope
               false Fixture.fresh in
  run.1 = inr tt ∧
  length (dispatched_of "keychange" (st_trace run.2)) = 1%nat ∧
  reentries (st_trace run.2) = [].
Proof. cbn zeta. repeat split; vm_compute; reflexivity. Qed.

(** C6.  The claim is that after an identity-key error of a first
    activation the error is swallowed unless a listener accepts the key
    change.  On a receiver whose application registered a [message]
    listener only, the handler of a prekey envelope fails with an
    identity-key error, [handleEnvelope] dispatches the [keychange] event,
    and [dispatchEvent] throws on the undefined [keychange] listener list:
    [handleEnvelope] fails with that [TypeError] instead of returning. *)
Theorem handleEnvelope_keychange_dispatch_throws :
  let st0 := logged (EHandleEnvelope Fixture.prekey_envelope false)
               Fixture.message_only in
  let run := handleEnvelope Fixture.ext Fixture.this Fixture.prekey_envelope
               false Fixture.message_only in
  select_handler Fixture.ext Fixture.this Fixture.prekey_envelope
    = inr (handleContentMessage Fixture.ext Fixture.this) ∧
  (∃ e, handleContentMessage Fixture.ext Fixture.this
          Fixture.prekey_envelope st0 = (inl e, st0) ∧
        err_isIncomingIdentityKeyError e = true ∧ ¬ counter_error e) ∧
  run.1 = inl EventTarget.not_iterable ∧
  length (dispatched_of "keychange" (st_trace run.2)) = 1%nat ∧
  reentries (st_trace run.2) = [].
Proof.
  cbn zeta. split; [reflexivity|]. split.
  - eexists. split; [vm_compute; reflexivity|]. split; [reflexivity|].
    unfold counter_error. cbn. discriminate.
  - repeat split; vm_compute; reflexivity.
Qed.

Lemma handleSyncMessage_guards_witness :
  handleSyncMessage Fixture.ext Fixture.this Fixture.blocked_and_contacts
    Fixture.foreign_sync_envelope Fixture.fresh
    = (inl ForeignSyncError, Fixture.fresh) ∧
  handleSyncMessage Fixture.ext Fixture.this Fixture.blocked_and_contacts
    Fixture.self_sync_envelope Fixture.fresh
    = (inl SelfSyncError, Fixture.fresh).
Proof.
  split.
  - destruct (handleSyncMessage_guards Fixture.ext Fixture.this
                Fixture.blocked_and_contacts Fixture.foreign_sync_envelope
                Fixture.fresh) as (Hforeign & _).
    apply Hforeign. discriminate.
  - destruct (handleSyncMessage_guards Fixture.ext Fixture.this
                Fixture.blocked_and_contacts Fixture.self_sync_envelope
                Fixture.fresh) as (_ & Hself & _).
    apply Hself; reflexivity.
Defined.

(** C3 as stated fails: a sync message with both [blocked] and [contacts]
    takes the deprecated-contacts failure, not the [blocked] branch. *)
Lemma handleSyncMessage_blocked_after_contacts :
  let run := handleSyncMessage Fixture.ext Fixture.this
               Fixture.blocked_and_contacts Fixture.sync_envelope
               Fixture.fresh in
  present (sync_blocked Fixture.blocked_and_contacts) = true ∧
  present (sync_contacts Fixture.blocked_and_contacts) = true ∧
  run.1 = inl DeprecatedContactSync ∧
  run.1 ≠ inl Unsupported.
Proof.
  cbn zeta. split; [reflexivity|]. split; [reflexivity|].
  split; [vm_compute; reflexivity | vm_compute; discriminate].
Qed.

Lemma handleSyncMessage_dispatch_order_witness :
  (handleSyncMessage Fixture.ext Fixture.this Fixture.blocked_and_contacts
     Fixture.sync_envelope Fixture.fresh).1 = inl DeprecatedContactSync.
Proof.
  destruct (handleSyncMessage_dispatch_order Fixture.ext Fixture.this
              Fixture.blocked_and_contacts Fixture.sync_envelope Fixture.fresh)
    as (_ & _ & Hrest); [reflexivity | discriminate |].
  destruct Hrest as (Hcontacts & _); [reflexivity | reflexivity |].
  apply Hcontacts. reflexivity.
Defined.

(** C8 as stated fails: the request of a plain data message, handled
    without any identity-key re-entry, ends in one [message] event whose
    [keyChange] is undefined, not [false]. *)
Lemma message_keyChange_not_false :
  ∃ data,
    dispatched
      (st_trace (handleRequest Fixture.ext Fixture.this
                   (Fixture.put_request [x01; x68; x69; x80])
                   Fixture.fresh).2)
      = [EDispatch (new_Event "message" (MessageFields data))] ∧
    md_keyChange data = None ∧ md_keyChange data ≠ Some false.
Proof.
  eexists. split; [vm_compute; reflexivity|]. split; [reflexivity|discriminate].
Qed.

Lemma message_event_keyChange_witness :
  ∃ new,
    st_trace (handleDataMessage Fixture.ext Fixture.hi Fixture.data_envelope
                Fixture.fresh).2 = st_trace Fixture.fresh ++ new ∧
    ∃ ev, dispatched new = [EDispatch ev].
Proof.
  destruct (message_event_keyChange Fixture.ext Fixture.hi
              Fixture.data_envelope Fixture.fresh) as (new & Ht & _ & Hone);
    [reflexivity|].
  exists new. split; [exact Ht|]. apply Hone. vm_compute. reflexivity.
Defined.

Lemma handleEnvelope_counter_error_witness :
  (handleEnvelope Fixture.ext Fixture.this Fixture.duplicate_envelope false
     Fixture.fresh).1 = inr tt ∧
  dispatched
    (st_trace (handleRequest Fixture.ext Fixture.this
                 (Fixture.put_request [x01; x4d]) Fixture.fresh).2) = [].
Proof.
  destruct (handleEnvelope_counter_error Fixture.ext Fixture.this
              Fixture.duplicate_envelope false
              (handleContentMessage Fixture.ext Fixture.this)
              Fixture.MessageCounterError Fixture.fresh
              (logged (EHandleEnvelope Fixture.duplicate_envelope false)
                 Fixture.fresh))
    as (Hrun & Hquiet & Hack); [reflexivity | reflexivity | reflexivity |].
  split.
  - rewrite Hrun. reflexivity.
  - rewrite (Hack (Fixture.put_request [x01; x4d]));
      [| reflexivity | reflexivity | reflexivity | reflexivity].
    vm_compute. reflexivity.
Defined.

(** C2 as stated fails: on a GET request [handleRequest] logs and throws;
    the trace holds no [respond] call, with status 400 or any other. *)
Lemma handleRequest_bad_request_no_respond :
  let run := handleRequest Fixture.ext Fixture.this
               (Fixture.get_request [x01; x68; x69; x80]) Fixture.fresh in
  run.1 = inl BadTransportRequest ∧
  st_trace run.2 = [EConsole "error" "Expected PUT /message instead of:"] ∧
  responses (st_trace run.2) = [].
Proof. cbn zeta. repeat split; vm_compute; reflexivity. Qed.

Lemma handleRequest_bad_request_witness :
  handleRequest Fixture.ext Fixture.this (Fixture.get_request []) Fixture.fresh
    = (inl BadTransportRequest,
       logged (EConsole "error" "Expected PUT /message instead of:")
         Fixture.fresh).
Proof.
  destruct (handleRequest_bad_request Fixture.ext Fixture.this
              (Fixture.get_request []) Fixture.fresh) as (Hrun & _).
  - left. discriminate.
  - exact Hrun.
Defined.

(** C1 as stated fails: the frame of this GET request decodes, and
    [handleRequest] makes no [respond] call for it. *)
Lemma handleRequest_decodable_without_respond :
  let request := Fixture.get_request [x01; x68; x69; x80] in
  (∃ envelope, decodeFrame Fixture.ext Fixture.this request = inr envelope) ∧
  responses
    (st_trace (handleRequest Fixture.ext Fixture.this request Fixture.fresh).2)
    = [].
Proof.
  cbn zeta. split; [eexists; vm_compute; reflexivity | vm_compute; reflexivity].
Qed.

Lemma handleRequest_ack_discipline_witness :
  responses
    (st_trace (handleRequest Fixture.ext Fixture.this
                 (Fixture.put_request [x01; x68; x69; x80]) Fixture.fresh).2)
    = [ERespond 200 "OK"] ∧
  responses
    (st_trace (handleRequest Fixture.ext Fixture.this
                 (Fixture.put_request []) Fixture.message_only).2)
    = [ERespond 500 "Bad encrypted websocket message"].
Proof.
  split.
  - pose proof (handleRequest_ack_discipline Fixture.ext Fixture.this
                  (Fixture.put_request [x01; x68; x69; x80]) Fixture.fresh
                  eq_refl eq_refl) as H.
    cbn zeta in H.
    change (decodeFrame Fixture.ext Fixture.this
              (Fixture.put_request [x01; x68; x69; x80]))
      with (@inr JSError _ Fixture.data_envelope) in H.
    destruct H as [_ H]. exact H.
  - pose proof (handleRequest_ack_discipline Fixture.ext Fixture.this
                  (Fixture.put_request []) Fixture.message_only
                  eq_refl eq_refl) as H.
    cbn zeta in H.
    change (decodeFrame Fixture.ext Fixture.this (Fixture.put_request []))
      with (@inl JSError Envelope (Error "Bad MAC")) in H.
    destruct H as [H _]. exact H.
Defined.

End ConcreteRuns.

(** * Further properties *)

(** ** Padding removal, in full *)

Lemma trailer_marker_all_zero (buf : bytes) :
  trailer_marker buf = None → buf = replicate (length buf) x00.
Proof.
  unfold trailer_marker. induction buf as [|x l IH] using rev_ind; [done|].
  rewrite reverse_snoc. cbn [List.find].
  destruct (is_zero x) eqn:Hx; cbn [negb]; [|done].
  intros H. rewrite length_app. cbn [length].
  rewrite Nat.add_1_r, replicate_S_end. rewrite <- (IH H).
  by destruct x.
Qed.

Lemma trailer_marker_cases (buf : bytes) :
  buf = replicate (length buf) x00 ∨
  ∃ pre b k, buf = pre ++ b :: replicate k x00 ∧ is_zero b = false.
Proof.
  destruct (trailer_marker buf) as [b|] eqn:Hm.
  - right. destruct (trailer_marker_split _ _ Hm) as (pre & k & H1 & H2).
    by exists pre, b, k.
  - left. by apply trailer_marker_all_zero.
Qed.

Lemma marker_not_in_zeros (out pre : bytes) (j k : nat) (b : byte) :
  is_zero b = false →
  out ++ x80 :: replicate j x00 = pre ++ b :: replicate k x00 →
  out = pre ∧ b = x80.
Proof.
  intros Hb Heq.
  assert (Hrev : reverse (out ++ x80 :: replicate j x00)
                 = reverse (pre ++ b :: replicate k x00)) by by rewrite Heq.
  rewrite !reverse_app, !reverse_cons, !reverse_replicate in Hrev.
  rewrite <- !app_assoc in Hrev. cbn [app] in Hrev.
  clear Heq. revert k Hrev. induction j as [|j IH]; intros [|k]; cbn.
  - intros [= <- Hr]. apply (inj reverse) in Hr. by subst.
  - intros [=].
  - intros [= <- _]. done.
  - intros [= Hr]. by apply (IH k).
Qed.

(** X1.  [unpad] in full.  It returns [out] exactly when the buffer is
    [out], a [0x80] byte and zero bytes, or when the buffer holds zero
    bytes only and [out] is the buffer itself; and the only error it throws
    is [PaddingError]. *)
Theorem unpad_characterisation (buf out : bytes) (e : JSError) :
  (unpad buf = inr out ↔
     (∃ k, buf = out ++ x80 :: replicate k x00) ∨
     (out = buf ∧ buf = replicate (length buf) x00)) ∧
  (unpad buf = inl e → e = PaddingError).
Proof.
  destruct (trailer_marker_cases buf) as [Hz|(pre & b & k & Hbuf & Hb)].
  - assert (Hu : unpad buf = inr buf) by (rewrite Hz at 1 2; apply unpad_all_zero).
    split; [|by rewrite Hu]. rewrite Hu. split.
    + intros [= <-]. by right.
    + intros [[k Hk]|[-> _]]; [|done]. exfalso.
      assert (Hin : x80 ∈ buf) by (rewrite Hk; set_solver).
      rewrite Hz in Hin. apply elem_of_replicate in Hin as [? _]. done.
  - subst buf. destruct (byte_eq_dec b x80) as [->|Hne].
    + rewrite unpad_marker. split; [|done]. split.
      * intros [= <-]. left. by exists k.
      * intros [[j Hj]|[-> Hall]].
        -- symmetry in Hj. apply marker_not_in_zeros in Hj as [-> _]; done.
        -- exfalso.
           assert (Hin : x80 ∈ pre ++ x80 :: replicate k x00) by set_solver.
           rewrite Hall in Hin. apply elem_of_replicate in Hin as [? _]. done.
    + rewrite unpad_bad_marker by done. split; [|by intros [= <-]]. split; [done|].
      intros [[j Hj]|[-> Hall]]; exfalso.
      * symmetry in Hj. apply marker_not_in_zeros in Hj as [_ ->]; done.
      * assert (Hin : b ∈ pre ++ b :: replicate k x00) by set_solver.
        rewrite Hall in Hin. apply elem_of_replicate in Hin as [-> _]. done.
Qed.

Lemma unpad_characterisation_witness :
  unpad [x68; x80; x69; x80; x00] = inr [x68; x80; x69] ∧
  (∀ e, unpad [x68; x01] = inl e → e = PaddingError).
Proof.
  split.
  - apply (unpad_characterisation [x68; x80; x69; x80; x00] [x68; x80; x69]
             PaddingError).
    left. by exists 1%nat.
  - intros e. apply (unpad_characterisation [x68; x01] [] e).
Defined.

(** ** The listener registry *)

Section RegistryFacts.
Context {World : Type}.
Implicit Types (st : State World) (ev : Event) (callback : Listener World).

Lemma call_listeners_app (l1 l2 : list (Listener World)) ev st :
  EventTarget.call_listeners (l1 ++ l2) ev st =
    match EventTarget.call_listeners l1 ev st with
    | (inr ev', st') => EventTarget.call_listeners l2 ev' st'
    | (inl e, st') => (inl e, st')
    end.
Proof.
  revert ev st. induction l1 as [|cb rest IH]; intros ev st; [done|].
  cbn [app EventTarget.call_listeners].
  destruct (l_call cb ev (st_world st)) as [[[e|[]] ev'] w].
  - unfold bind, console, emit. cbn. apply IH.
  - apply IH.
Qed.

(** What [addEventListener] does for a name that is not inherited. *)
Lemma addEventListener_run st eventName callback :
  EventTarget.inherited eventName = false →
  ∃ listeners,
    EventTarget.addEventListener eventName callback st
      = (inr tt, mkState (st_world st) (Some listeners) (st_trace st)) ∧
    listeners !! eventName
      = Some (default [] (listener_list st eventName) ++ [callback]) ∧
    ∀ type, type ≠ eventName → listeners !! type = listener_list st type.
Proof.
  intros Hinh. unfold EventTarget.addEventListener, listener_list.
  destruct (st_listeners st) as [m|] eqn:Hm; cbn.
  - destruct (m !! eventName) as [cbs|] eqn:Hl; rewrite ?Hinh;
      (eexists; split; [reflexivity|]); cbn; rewrite ?Hl;
      (split; [by rewrite lookup_insert_eq|]);
      intros type Hne; by rewrite lookup_insert_ne.
  - rewrite lookup_empty, Hinh.
    eexists; split; [reflexivity|]. cbn.
    split; [by rewrite lookup_insert_eq|].
    intros type Hne. by rewrite lookup_insert_ne, lookup_empty.
Qed.

(** X2.  Registration order is call order.  For a name that is not
    inherited from [Object.prototype], [addEventListener] returns normally,
    keeps the lists of the other names, and an event of that name is then
    given to the callbacks registered before, in their order, and to the
    new callback last, on the event as the others left it. *)
Theorem addEventListener_registration_order st eventName callback ev :
  EventTarget.inherited eventName = false →
  ev_type ev = eventName →
  let st' := (EventTarget.addEventListener eventName callback st).2 in
  (EventTarget.addEventListener eventName callback st).1 = inr tt ∧
  (∀ type, type ≠ eventName → listener_list st' type = listener_list st type) ∧
  EventTarget.dispatchEvent ev st' =
    match EventTarget.call_listeners
            (default [] (listener_list st eventName)) ev
            (logged (EDispatch ev) st') with
    | (inr ev1, st1) => EventTarget.call_listeners [callback] ev1 st1
    | (inl e, st1) => (inl e, st1)
    end.
Proof.
  intros Hinh Hty st'. subst st' eventName.
  destruct (addEventListener_run st (ev_type ev) callback Hinh)
    as (listeners & -> & Hname & Hother).
  cbn [fst snd]. split; [done|]. split; [done|].
  erewrite dispatchEvent_defined_list; [|done|exact Hname].
  apply call_listeners_app.
Qed.

(** The trace of the loop of [dispatchEvent]: one console entry for each
    callback that threw. *)
Lemma call_listeners_trace (callbacks : list (Listener World)) ev st :
  ∃ new,
    st_trace (EventTarget.call_listeners callbacks ev st).2 = st_trace st ++ new ∧
    Forall (λ e, e = EConsole "error" "Event Listener Exception") new ∧
    (length new ≤ length callbacks)%nat.
Proof.
  revert ev st. induction callbacks as [|cb rest IH]; intros ev st.
  - exists []. cbn. by rewrite app_nil_r.
  - cbn [EventTarget.call_listeners].
    destruct (l_call cb ev (st_world st)) as [[[e|[]] ev'] w].
    + unfold bind, console, emit. cbn.
      match goal with |- context [EventTarget.call_listeners rest ev' ?s] =>
        destruct (IH ev' s) as (new & Ht & Hall & Hlen) end.
      exists (EConsole "error" "Event Listener Exception" :: new).
      rewrite Ht. cbn. rewrite <- app_assoc. cbn.
      split; [done|]. split; [by constructor|lia].
    + destruct (IH ev' (mkState w (st_listeners st) (st_trace st)))
        as (new & Ht & Hall & Hlen).
      exists new. cbn in *. split; [done|]. split; [done|lia].
Qed.

(** X3.  Listener faults are isolated.  When the type of the event has a
    listener list, [dispatchEvent] returns normally whatever the callbacks
    throw; the registry is as before, and the trace holds the dispatch
    followed by at most one console entry per callback and nothing else. *)
Theorem dispatchEvent_isolates_listener_faults st ev callbacks :
  listener_list st (ev_type ev) = Some callbacks →
  ∃ ev' st' new,
    EventTarget.dispatchEvent ev st = (inr ev', st') ∧
    st_listeners st' = st_listeners st ∧
    st_trace st' = st_trace st ++ EDispatch ev :: new ∧
    Forall (λ e, e = EConsole "error" "Event Listener Exception") new ∧
    (length new ≤ length callbacks)%nat.
Proof.
  unfold listener_list. intros Hl.
  destruct (st_listeners st) as [listeners|] eqn:Hm; [|done]. cbn in Hl.
  rewrite (dispatchEvent_defined_list _ _ _ _ Hm Hl).
  destruct (call_listeners_returns callbacks ev (logged (EDispatch ev) st))
    as (ev' & st' & Hrun).
  destruct (call_listeners_trace callbacks ev (logged (EDispatch ev) st))
    as (new & Ht & Hall & Hlen).
  pose proof (call_listeners_listeners callbacks ev (logged (EDispatch ev) st))
    as Hkeep.
  rewrite Hrun in Ht, Hkeep. cbn in Ht, Hkeep.
  exists ev', st', new. split; [done|]. split; [by rewrite Hkeep|].
  split; [|done]. by rewrite Ht, <- app_assoc.
Qed.

End RegistryFacts.

Lemma addEventListener_registration_order_witness :
  let st := (EventTarget.addEventListener "ping" (Bench.faulty 1) Bench.fresh).2 in
  let st' := (EventTarget.addEventListener "ping" (Bench.counting 2) st).2 in
  listener_list st' "ping" = Some [Bench.faulty 1; Bench.counting 2] ∧
  st_world (EventTarget.dispatchEvent Bench.ping st').2 = 2%nat.
Proof.
  cbn zeta. split; [reflexivity|].
  destruct (addEventListener_registration_order
              (EventTarget.addEventListener "ping" (Bench.faulty 1) Bench.fresh).2
              "ping" (Bench.counting 2) Bench.ping)
    as (_ & _ & Hrun); [reflexivity | reflexivity |].
  rewrite Hrun. reflexivity.
Defined.

Lemma dispatchEvent_isolates_listener_faults_witness :
  let st := (EventTarget.addEventListener "ping" (Bench.faulty 1) Bench.fresh).2 in
  let st' := (EventTarget.addEventListener "ping" (Bench.counting 2) st).2 in
  ∃ ev' st'', EventTarget.dispatchEvent Bench.ping st' = (inr ev', st'').
Proof.
  cbn zeta.
  destruct (dispatchEvent_isolates_listener_faults
              (EventTarget.addEventListener "ping" (Bench.counting 2)
                 (EventTarget.addEventListener "ping" (Bench.faulty 1)
                    Bench.fresh).2).2
              Bench.ping [Bench.faulty 1; Bench.counting 2])
    as (ev' & st'' & new & Hrun & _); [reflexivity|].
  by exists ev', st''.
Defined.

Section RegistryCompositions.
Context {World : Type}.
Implicit Types (st : State World) (ev : Event) (callback : Listener World).

(** What [removeEventListener] does where the name has a list. *)
Lemma removeEventListener_run st eventName callback callbacks :
  listener_list st eventName = Some callbacks →
  ∃ listeners,
    EventTarget.removeEventListener eventName callback st
      = (inr tt, mkState (st_world st) (Some listeners) (st_trace st)) ∧
    listeners !! eventName
      = Some (filter (λ x, l_id x ≠ l_id callback) callbacks) ∧
    ∀ type, type ≠ eventName → listeners !! type = listener_list st type.
Proof.
  unfold listener_list, EventTarget.removeEventListener.
  destruct (st_listeners st) as [m|] eqn:Hm; [|done]. cbn. intros Hl.
  rewrite Hl. eexists. split; [reflexivity|].
  split; [by rewrite lookup_insert_eq|].
  intros type Hne. by rewrite lookup_insert_ne.
Qed.

(** X4.  Registering and removing is no round trip.  On a target where
    nothing was ever registered under a (not inherited) name, registering a
    callback under that name and removing it again leaves an empty list
    there, not an undefined one: an event of that name is then dispatched
    to nobody and [dispatchEvent] returns, where before, on a target with
    other listeners, it threw. *)
Theorem add_then_remove_leaves_empty_list st eventName callback ev :
  EventTarget.inherited eventName = false →
  listener_list st eventName = None →
  ev_type ev = eventName →
  let st1 := (EventTarget.addEventListener eventName callback st).2 in
  let st2 := (EventTarget.removeEventListener eventName callback st1).2 in
  listener_list st2 eventName = Some [] ∧
  (∀ type, type ≠ eventName → listener_list st2 type = listener_list st type) ∧
  EventTarget.dispatchEvent ev st2 = (inr ev, logged (EDispatch ev) st2) ∧
  (is_Some (st_listeners st) →
   EventTarget.dispatchEvent ev st
     = (inl EventTarget.not_iterable, logged (EDispatch ev) st)).
Proof.
  intros Hinh Hnone Hty st1 st2. subst st1 st2 eventName.
  destruct (addEventListener_run st (ev_type ev) callback Hinh)
    as (l1 & -> & Hname1 & Hother1).
  rewrite Hnone in Hname1. cbn in Hname1. cbn [snd].
  set (st1 := mkState (st_world st) (Some l1) (st_trace st)).
  destruct (removeEventListener_run st1 (ev_type ev) callback [callback])
    as (l2 & -> & Hname2 & Hother2); [done|].
  cbn [snd].
  rewrite filter_cons_False, filter_nil in Hname2 by (by intros H; apply H).
  split; [done|]. split.
  { intros type Hne. cbn. rewrite Hother2 by done. cbn. by apply Hother1. }
  split.
  - by apply dispatchEvent_empty_list with l2.
  - intros [m Hm]. apply dispatchEvent_undefined_list with m; [done|].
    unfold listener_list in Hnone. by rewrite Hm in Hnone.
Qed.

Lemma filter_keeps_all (P : Listener World → Prop) `{∀ x, Decision (P x)}
    (l : list (Listener World)) :
  (∀ x, x ∈ l → P x) → filter P l = l.
Proof.
  induction l as [|x l IH]; intros Hall; [done|].
  rewrite filter_cons_True by (apply Hall; set_solver).
  f_equal. apply IH. intros y Hy. apply Hall. set_solver.
Qed.

(** X5.  No deduplication on registration, and removal by identity.
    Registering the same callback twice puts it twice at the end of the
    list, so it is called twice per event; one [removeEventListener] takes
    both registrations out and gives back the list as it was before. *)
Theorem duplicate_registration st eventName callback :
  EventTarget.inherited eventName = false →
  (∀ l, l ∈ default [] (listener_list st eventName) → l_id l ≠ l_id callback) →
  let before := default [] (listener_list st eventName) in
  let st1 := (EventTarget.addEventListener eventName callback st).2 in
  let st2 := (EventTarget.addEventListener eventName callback st1).2 in
  let st3 := (EventTarget.removeEventListener eventName callback st2).2 in
  listener_list st2 eventName = Some (before ++ [callback; callback]) ∧
  listener_list st3 eventName = Some before ∧
  (EventTarget.removeEventListener eventName callback st2).1 = inr tt.
Proof.
  intros Hinh Hfresh before st1 st2 st3. subst st1 st2 st3.
  destruct (addEventListener_run st eventName callback Hinh)
    as (l1 & -> & Hname1 & _). cbn [snd].
  set (st1 := mkState (st_world st) (Some l1) (st_trace st)).
  destruct (addEventListener_run st1 eventName callback Hinh)
    as (l2 & -> & Hname2 & _). cbn [snd].
  assert (H1 : listener_list st1 eventName = Some (before ++ [callback])) by done.
  rewrite H1 in Hname2. cbn in Hname2. rewrite <- app_assoc in Hname2.
  set (st2 := mkState (st_world st1) (Some l2) (st_trace st1)).
  destruct (removeEventListener_run st2 eventName callback
              (before ++ [callback; callback]))
    as (l3 & -> & Hname3 & _); [done|].
  cbn [fst snd]. split; [done|]. split; [|done].
  cbn. rewrite Hname3. f_equal.
  rewrite filter_app.
  rewrite !filter_cons_False, filter_nil by (by intros H; apply H).
  rewrite app_nil_r. apply filter_keeps_all.
  intros l Hl. by apply Hfresh.
Qed.

(** X6.  A name inherited from [Object.prototype].  [addEventListener]
    under such a name throws a [TypeError] and registers nothing, but it
    has created [_listeners] by then; so even on a target that had no
    listeners at all, [dispatchEvent] now throws for every event type
    without a list, the inherited name included. *)
Theorem addEventListener_inherited_name st eventName callback ev :
  eventName ∈ EventTarget.object_prototype_names →
  listener_list st eventName = None →
  let run := EventTarget.addEventListener eventName callback st in
  (∃ msg, run.1 = inl (TypeError msg)) ∧
  is_Some (st_listeners run.2) ∧
  (∀ type, listener_list run.2 type = listener_list st type) ∧
  (listener_list st (ev_type ev) = None →
   EventTarget.dispatchEvent ev run.2
     = (inl EventTarget.not_iterable, logged (EDispatch ev) run.2)).
Proof.
  intros Hin Hnone run. subst run.
  assert (Hinh : EventTarget.inherited eventName = true)
    by by apply bool_decide_eq_true_2.
  assert (Hsame : ∀ type, default ∅ (st_listeners st) !! type
                          = listener_list st type).
  { intros type. unfold listener_list.
    destruct (st_listeners st); cbn; [done|apply lookup_empty]. }
  assert (Hrun : EventTarget.addEventListener eventName callback st =
    (inl (TypeError "this._listeners[eventName].push is not a function"),
     mkState (st_world st) (Some (default ∅ (st_listeners st))) (st_trace st))).
  { unfold EventTarget.addEventListener. by rewrite Hsame, Hnone, Hinh. }
  rewrite Hrun. cbn [fst snd].
  split; [by eexists|]. split; [by eexists|]. split; [done|].
  intros Hev. eapply dispatchEvent_undefined_list; [done|].
  by rewrite Hsame.
Qed.

End RegistryCompositions.

Lemma add_then_remove_leaves_empty_list_witness :
  let st := (EventTarget.addEventListener "pong" (Bench.counting 1) Bench.fresh).2 in
  let st1 := (EventTarget.addEventListener "ping" (Bench.counting 2) st).2 in
  let st2 := (EventTarget.removeEventListener "ping" (Bench.counting 2) st1).2 in
  (EventTarget.dispatchEvent Bench.ping st).1 = inl EventTarget.not_iterable ∧
  (EventTarget.dispatchEvent Bench.ping st2).1 = inr Bench.ping.
Proof.
  cbn zeta.
  destruct (add_then_remove_leaves_empty_list
              (EventTarget.addEventListener "pong" (Bench.counting 1)
                 Bench.fresh).2
              "ping" (Bench.counting 2) Bench.ping)
    as (_ & _ & Hafter & Hbefore); [reflexivity | reflexivity | reflexivity |].
  split.
  - rewrite Hbefore; [reflexivity | by eexists].
  - rewrite Hafter. reflexivity.
Defined.

Lemma duplicate_registration_witness :
  let st := (EventTarget.addEventListener "ping" (Bench.faulty 1) Bench.fresh).2 in
  let st1 := (EventTarget.addEventListener "ping" (Bench.counting 2) st).2 in
  let st2 := (EventTarget.addEventListener "ping" (Bench.counting 2) st1).2 in
  let st3 := (EventTarget.removeEventListener "ping" (Bench.counting 2) st2).2 in
  st_world (EventTarget.dispatchEvent Bench.ping st2).2 = 3%nat ∧
  listener_list st3 "ping" = Some [Bench.faulty 1].
Proof.
  cbn zeta. split; [reflexivity|].
  destruct (duplicate_registration
              (EventTarget.addEventListener "ping" (Bench.faulty 1) Bench.fresh).2
              "ping" (Bench.counting 2))
    as (_ & Hback & _); [reflexivity | |exact Hback].
  intros l Hl. cbn in Hl. apply list_elem_of_singleton in Hl as ->.
  cbn. discriminate.
Defined.

Lemma addEventListener_inherited_name_witness :
  let run := EventTarget.addEventListener "constructor" (Bench.counting 1)
               Bench.fresh in
  (EventTarget.dispatchEvent Bench.ping Bench.fresh).1 = inr Bench.ping ∧
  (EventTarget.dispatchEvent Bench.ping run.2).1 = inl EventTarget.not_iterable.
Proof.
  cbn zeta. split; [reflexivity|].
  destruct (addEventListener_inherited_name Bench.fresh "constructor"
              (Bench.counting 1) Bench.ping)
    as (_ & _ & _ & Hthrows); [set_solver | reflexivity |].
  rewrite Hthrows; reflexivity.
Defined.

(** ** Session termination and attachments *)

Section ProcessFacts.
Context {World : Type} (ext : Externals World) (this : Identity).
Implicit Types (st : State World) (msg : DataMessage).

Import MessageReceiver.

(** [Promise.all] runs every element: the state after it is the state
    after all the calls in turn. *)
Lemma promise_all_state {A B} (f : A → M World B) xs st :
  (promise_all ext f xs st).2 = foldl (λ s x, (f x s).2) st xs.
Proof.
  rewrite promise_all_start_all.
  revert st. induction xs as [|x rest IH]; intros st; [done|].
  cbn [start_all foldl]. rewrite <- IH.
  destruct (f x st) as [r st1]. cbn [snd].
  by destruct (start_all f rest st1) as [rs st2].
Qed.

(** It returns the values of all the calls, in order, when all return. *)
Lemma promise_all_values {A B} (f : A → M World B) (R : A → B → Prop) xs st bs st' :
  (∀ x s b s', f x s = (inr b, s') → R x b) →
  promise_all ext f xs st = (inr bs, st') → Forall2 R xs bs.
Proof.
  intros HR. unfold promise_all.
  destruct (start_all f xs st) as [rs st1] eqn:Hstart.
  destruct (rejections rs) as [|e es] eqn:Hrej; [|done].
  intros [= <- _]. clear st'. revert st rs st1 Hstart Hrej.
  induction xs as [|x rest IH]; intros st rs st1.
  - cbn. intros [= <- _] _. constructor.
  - cbn [start_all].
    destruct (f x st) as [r st2] eqn:Hx.
    destruct (start_all f rest st2) as [rs' st3] eqn:Hrest.
    intros [= <- _]. destruct r as [e|b]; [done|].
    cbn. intros Hrej. constructor; [by eapply HR | by eapply IH].
Qed.

(** It returns when every call returns. *)
Lemma promise_all_returns {A B} (f : A → M World B) xs st :
  (∀ x s, x ∈ xs → ∃ b s', f x s = (inr b, s')) →
  ∃ bs st', promise_all ext f xs st = (inr bs, st').
Proof.
  intros Hok. unfold promise_all.
  assert (Hrej : rejections (start_all f xs st).1 = []).
  { revert st. induction xs as [|x rest IH]; intros st; [done|].
    cbn [start_all].
    destruct (Hok x st) as (b & s1 & ->); [set_solver|].
    specialize (IH ltac:(intros; apply Hok; set_solver) s1).
    destruct (start_all f rest s1) as [rs s2]. by cbn in *. }
  destruct (start_all f xs st) as [rs st1]. cbn [fst] in Hrej. rewrite Hrej.
  by eexists _, _.
Qed.

(** When it is rejected, the rejection is that of one of the calls. *)
Lemma promise_all_rejection {A B} (f : A → M World B) xs st e st' :
  promise_all ext f xs st = (inl e, st') →
  e ∈ rejections (start_all f xs st).1.
Proof.
  unfold promise_all. destruct (start_all f xs st) as [rs st1]. cbn [fst].
  destruct (rejections rs) as [|e0 es]; [done|]. cbn zeta.
  set (i := (settles_first ext (st_world st1) (e0 :: es)
             `mod` length (e0 :: es))%nat).
  intros Hrun. assert (e = nth i (e0 :: es) e0) as -> by congruence.
  assert (Hlt : (i < length (e0 :: es))%nat)
    by (apply Nat.mod_upper_bound; done).
  destruct (lookup_lt_is_Some_2 _ _ Hlt) as [x Hx].
  rewrite (nth_lookup_Some _ _ e0 _ Hx).
  apply list_elem_of_lookup. by exists i.
Qed.

Lemma closing_sessions_state addr deviceIds st :
  foldl (λ s deviceId,
           ((console "warn" "Closing session for" ;;;
             call (closeOpenSessionForDevice ext addr deviceId)) s).2)
        st deviceIds
  = mkState (closed_sessions ext addr deviceIds (st_world st))
            (st_listeners st)
            (st_trace st
               ++ replicate (length deviceIds)
                    (EConsole "warn" "Closing session for")).
Proof.
  revert st. induction deviceIds as [|d rest IH]; intros st.
  - cbn. rewrite app_nil_r. by destruct st.
  - cbn [foldl]. rewrite IH. unfold bind, console, emit, call.
    cbn [fst snd st_world st_listeners st_trace].
    unfold closed_sessions at 2. cbn [foldl length replicate].
    destruct (closeOpenSessionForDevice ext addr d (st_world st)) as [r w].
    cbn [fst snd st_world st_listeners st_trace].
    by rewrite <- app_assoc.
Qed.

(** [handleEndSession] where the store lists the device ids. *)
Lemma handleEndSession_closes_every_device_helper addr deviceIds w1 st :
  getDeviceIds ext addr (st_world st) = (inr deviceIds, w1) →
  let run := handleEndSession ext addr st in
  st_world run.2 = closed_sessions ext addr deviceIds w1 ∧
  st_trace run.2
    = st_trace st
        ++ replicate (length deviceIds) (EConsole "warn" "Closing session for") ∧
  st_listeners run.2 = st_listeners st ∧
  ((∀ deviceId w, deviceId ∈ deviceIds →
      (closeOpenSessionForDevice ext addr deviceId w).1 = inr tt) →
   run.1 = inr tt).
Proof.
  intros Hids run. subst run.
  set (st1 := mkState w1 (st_listeners st) (st_trace st)).
  set (f := λ deviceId : Z,
              console "warn" "Closing session for" ;;;
              call (closeOpenSessionForDevice ext addr deviceId)).
  assert (Heq : handleEndSession ext addr st =
            match promise_all ext f deviceIds st1 with
            | (inl e, s) => (inl e, s)
            | (inr _, s) => (inr tt, s)
            end).
  { unfold handleEndSession. fold f. unfold bind, call, ret. rewrite Hids.
    fold st1. by destruct (promise_all ext f deviceIds st1) as [[e|us] s]. }
  rewrite Heq. clear Heq.
  pose proof (promise_all_state f deviceIds st1) as Hstate.
  unfold f in Hstate at 2. rewrite closing_sessions_state in Hstate.
  destruct (promise_all ext f deviceIds st1) as [[e|us] st2] eqn:Hrun;
    cbn [fst snd] in *; subst st2; cbn [st_world st_trace st_listeners].
  - repeat split; try done. intros Hok. exfalso.
    destruct (promise_all_returns f deviceIds st1) as (bs & s' & Hr).
    + intros d s Hd. unfold f, bind, console, emit, call. cbn.
      specialize (Hok d (st_world s) Hd).
      destruct (closeOpenSessionForDevice ext addr d (st_world s)) as [r w].
      cbn in Hok. subst r. by eexists _, _.
    + by rewrite Hr in Hrun.
  - repeat split; done.
Qed.

(** X7.  [handleEndSession] closes the session of every device of the
    address.  When the store lists the device ids, the close call runs for
    each of them in order, also after one of them failed; one warning is
    logged per device and nothing else; listeners are untouched.  It
    returns normally when every close call does. *)
Theorem handleEndSession_closes_every_device addr deviceIds w1 st :
  getDeviceIds ext addr (st_world st) = (inr deviceIds, w1) →
  let run := handleEndSession ext addr st in
  st_world run.2 = closed_sessions ext addr deviceIds w1 ∧
  st_trace run.2
    = st_trace st
        ++ replicate (length deviceIds) (EConsole "warn" "Closing session for") ∧
  st_listeners run.2 = st_listeners st ∧
  ((∀ deviceId w, deviceId ∈ deviceIds →
      (closeOpenSessionForDevice ext addr deviceId w).1 = inr tt) →
   run.1 = inr tt).
Proof. apply handleEndSession_closes_every_device_helper. Qed.

(** The normalisation [processDecrypted] starts with. *)
Lemma processDecrypted_run msg source st :
  let msg0 := mkDataMessage (dm_body msg) (Some (default 0 (dm_flags msg)))
                (Some (default 0 (dm_expireTimer msg)))
                (dm_group msg) (dm_attachments msg) in
  processDecrypted ext msg source st =
    if ends_session ext msg then (inr msg0, st)
    else
      ((if dm_group msg then console "error" "Legacy group message detected"
        else ret tt) ;;;
       match dm_attachments msg with
       | Some attachments =>
           attachments' <- promise_all ext (handleAttachment ext) attachments ;;
           ret (mkDataMessage (dm_body msg0) (dm_flags msg0)
                  (dm_expireTimer msg0) (dm_group msg0) (Some attachments'))
       | None => ret msg0
       end) st.
Proof.
  cbn zeta. unfold processDecrypted, ends_session, js_band.
  destruct msg as [body [flags|] [timer|] group atts]; cbn [dm_flags
    dm_expireTimer dm_body dm_group dm_attachments default];
    by destruct (truthy _).
Qed.

(** The fields of a message [processDecrypted] returns. *)
Lemma processDecrypted_fields msg source st msg' st' :
  processDecrypted ext msg source st = (inr msg', st') →
  dm_flags msg' = Some (default 0 (dm_flags msg)) ∧
  dm_expireTimer msg' = Some (default 0 (dm_expireTimer msg)) ∧
  dm_body msg' = dm_body msg ∧ dm_group msg' = dm_group msg.
Proof.
  rewrite processDecrypted_run. cbn zeta.
  destruct (ends_session ext msg); [by intros [= <- _]|].
  intros Hrun. apply bind_inr in Hrun as (u & s1 & _ & Hrun).
  destruct (dm_attachments msg) as [atts|]; [|by injection Hrun as <- _].
  apply bind_inr in Hrun as (atts' & s2 & _ & Hret).
  by injection Hret as <- _.
Qed.

(** One call of [handleAttachment] that returns. *)
Lemma handleAttachment_fetched a s a' s' :
  handleAttachment ext a s = (inr a', s') → fetched a a'.
Proof.
  unfold handleAttachment. intros Ha.
  apply bind_inr in Ha as (enc & sa & _ & Ha).
  apply bind_inr in Ha as (data & sb & _ & Ha).
  injection Ha as <- _. by repeat split.
Qed.

(** Every field of a message [processDecrypted] returns. *)
Lemma processDecrypted_processed msg source st msg' st' :
  processDecrypted ext msg source st = (inr msg', st') →
  processed ext msg msg'.
Proof.
  intros Hrun. unfold processed.
  destruct (processDecrypted_fields _ _ _ _ _ Hrun) as (Hf & Ht & Hb & Hg).
  do 4 (split; [done|]).
  rewrite processDecrypted_run in Hrun. cbn zeta in Hrun.
  destruct (ends_session ext msg).
  { injection Hrun as <- _. cbn. by destruct (dm_attachments msg). }
  apply bind_inr in Hrun as (u & s1 & _ & Hrun).
  destruct (dm_attachments msg) as [atts|]; [|by injection Hrun as <- _].
  apply bind_inr in Hrun as (atts' & s2 & Hall & Hret).
  injection Hret as <- _. exists atts'. split; [done|].
  eapply promise_all_values; [|exact Hall]. apply handleAttachment_fetched.
Qed.

(** X8.  What listeners get from [processDecrypted].  A message it returns
    has numeric [flags] and [expireTimer], zero where they were null, and
    the body and group it came with; running it again on its result
    changes neither field. *)
Theorem processDecrypted_normalises msg source st msg' st' :
  processDecrypted ext msg source st = (inr msg', st') →
  dm_flags msg' = Some (default 0 (dm_flags msg)) ∧
  dm_expireTimer msg' = Some (default 0 (dm_expireTimer msg)) ∧
  dm_body msg' = dm_body msg ∧ dm_group msg' = dm_group msg ∧
  (∀ source2 st2 msg'' st3,
     processDecrypted ext msg' source2 st2 = (inr msg'', st3) →
     dm_flags msg'' = dm_flags msg' ∧ dm_expireTimer msg'' = dm_expireTimer msg').
Proof.
  intros Hrun.
  destruct (processDecrypted_fields _ _ _ _ _ Hrun) as (Hf & Ht & Hb & Hg).
  do 4 (split; [done|]).
  intros source2 st2 msg'' st3 Hagain.
  destruct (processDecrypted_fields _ _ _ _ _ Hagain) as (Hf2 & Ht2 & _).
  by rewrite Hf2, Ht2, Hf, Ht.
Qed.


(** X10.  Attachments are fetched and decrypted one for one.  When
    [processDecrypted] returns for a message that does not end the session,
    its attachments are the ones it came with, in order, each with its id
    and key and with its data set. *)
Theorem processDecrypted_fills_attachments msg source st msg' st' attachments :
  ends_session ext msg = false →
  dm_attachments msg = Some attachments →
  processDecrypted ext msg source st = (inr msg', st') →
  ∃ attachments',
    dm_attachments msg' = Some attachments' ∧
    Forall2 fetched attachments attachments'.
Proof.
  intros Hend Hatts. rewrite processDecrypted_run. cbn zeta.
  rewrite Hend, Hatts. intros Hrun.
  apply bind_inr in Hrun as (u & s1 & _ & Hrun).
  apply bind_inr in Hrun as (atts' & s2 & Hall & Hret).
  injection Hret as <- _. exists atts'. split; [done|].
  eapply promise_all_values; [|exact Hall].
  intros a s a' s' Ha. unfold handleAttachment in Ha.
  apply bind_inr in Ha as (enc & sa & _ & Ha).
  apply bind_inr in Ha as (data & sb & _ & Ha).
  injection Ha as <- _. by repeat split.
Qed.

End ProcessFacts.

Lemma handleEndSession_closes_every_device_witness :
  let run := MessageReceiver.handleEndSession Samples.ext "+15550002222"
               Samples.fresh in
  st_world run.2 = [("close", 1); ("close", 2); ("close", 3)] ∧
  length (st_trace run.2) = 3%nat.
Proof.
  cbn zeta.
  destruct (handleEndSession_closes_every_device Samples.ext "+15550002222"
              [1; 2; 3] [] Samples.fresh) as (Hworld & Htrace & _);
    [reflexivity|].
  rewrite Hworld, Htrace. split; reflexivity.
Defined.

Lemma processDecrypted_normalises_witness :
  ∃ msg', MessageReceiver.processDecrypted Samples.ext Fixture.hi "+15550001111"
            Samples.fresh = (inr msg', Samples.fresh) ∧
          dm_flags msg' = Some 0 ∧ dm_expireTimer msg' = Some 0.
Proof.
  eexists. split; [reflexivity|].
  destruct (processDecrypted_normalises Samples.ext Fixture.hi "+15550001111"
              Samples.fresh _ Samples.fresh eq_refl) as (Hf & Ht & _).
  split; [exact Hf | exact Ht].
Defined.


Lemma processDecrypted_fills_attachments_witness :
  ∃ msg' st' attachments',
    MessageReceiver.processDecrypted Samples.ext Samples.with_attachment
      "+15550001111" Samples.fresh = (inr msg', st') ∧
    dm_attachments msg' = Some attachments' ∧
    Forall2 fetched [mkAttachment 7 [x01] None; mkAttachment 8 [x02] None]
            attachments'.
Proof.
  eexists _, _.
  assert (Hrun : MessageReceiver.processDecrypted Samples.ext
                   Samples.with_attachment "+15550001111" Samples.fresh
                 = (inr (mkDataMessage (Some "pic") (Some 0) (Some 0) false
                           (Some [mkAttachment 7 [x01] (Some [x2a; x01]);
                                  mkAttachment 8 [x02] (Some [x2a; x02])])),
                    mkState [("fetch", 7); ("fetch", 8)] None []))
    by (vm_compute; reflexivity).
  destruct (processDecrypted_fills_attachments Samples.ext
              Samples.with_attachment "+15550001111" Samples.fresh _ _
              [mkAttachment 7 [x01] None; mkAttachment 8 [x02] None]
              eq_refl eq_refl Hrun) as (atts' & Hatts & Hall).
  exists atts'. by split.
Defined.

(** ** 64-bit fields as numbers *)

(** [toNumber] is exact on the integers a double holds exactly. *)
Lemma toNumber_exact z : Z.abs z ≤ 2 ^ 53 → toNumber z = z.
Proof.
  intros Hz. unfold toNumber. cbv zeta.
  destruct (decide (Z.log2 (Z.abs z) - 52 ≤ 0)) as [|Hlog]; [done|].
  assert (Hlt : ¬ Z.abs z < 2 ^ 53).
  { intros Hlt. apply Hlog.
    destruct (decide (Z.abs z = 0)) as [->|Hnz]; [done|].
    assert (Z.log2 (Z.abs z) < 53) by (apply Z.log2_lt_pow2; lia). lia. }
  assert (Hz' : z = 2 ^ 53 ∨ z = - 2 ^ 53) by lia.
  destruct Hz' as [-> | ->]; vm_compute; reflexivity.
Qed.

(** Above [2^53] it rounds to the nearest double, ties to even. *)
Lemma toNumber_rounds :
  toNumber (2 ^ 53 + 1) = 2 ^ 53 ∧ toNumber (2 ^ 53 + 3) = 2 ^ 53 + 4 ∧
  toNumber (2 ^ 64 - 1) = 2 ^ 64 ∧ toNumber (- (2 ^ 53 + 3)) = - (2 ^ 53 + 4).
Proof. repeat split; vm_compute; reflexivity. Qed.

(** ** What the handlers dispatch *)

Lemma unpad_error (buf : bytes) (e : JSError) :
  unpad buf = inl e → e = PaddingError.
Proof.
  destruct (trailer_marker_cases buf) as [Hz|(pre & b & k & -> & Hb)].
  - rewrite Hz, unpad_all_zero. done.
  - destruct (byte_eq_dec b x80) as [->|Hne].
    + by rewrite unpad_marker.
    + rewrite unpad_bad_marker by done. by intros [= <-].
Qed.

Section HandlerFacts.
Context {World : Type} (ext : Externals World) (this : Identity).
Implicit Types (st : State World) (envelope : Envelope).

Import MessageReceiver.

Ltac emits_auto :=
  match goal with
  | |- emits _ (ret _) => apply emits_ret
  | |- emits _ (throw _) => apply emits_throw
  | |- emits _ (lift _) => apply emits_lift
  | |- emits _ (call _) => apply emits_call
  | |- emits _ (console _ _) => apply emits_console; try done
  | |- emits _ (bind _ _) => apply emits_bind; [|intros ?]
  | |- emits _ (try_catch _ _) => apply emits_try_catch; [|intros ?]
  | |- emits _ (promise_all _ _ _) => apply emits_promise_all; intros ?
  | |- emits _ (if ?b then _ else _) => destruct b
  | |- emits _ (match ?x with _ => _ end) => destruct x
  end.

(** X11.  [handleRead] dispatches one [read] event per entry, in the order
    of the entries, each with the sender of its entry, the timestamp of
    its entry converted by [toNumber()], and the timestamp, source and
    source device of the envelope.  The converted timestamp is the entry's
    own when its magnitude is at most [2^53], else the nearest double.
    [handleRead] stops only when [dispatchEvent] itself throws; on a normal
    return every entry has had its event, and it does return normally on a
    target without listeners. *)
Theorem handleRead_one_event_per_entry (read : list Read) envelope st :
  let run := handleRead read envelope st in
  ∃ n, (n ≤ length read)%nat ∧
    dispatched (st_trace run.2)
      = dispatched (st_trace st)
          ++ map (λ x, EDispatch (read_event envelope x)) (take n read) ∧
    (run.1 = inr tt → n = length read) ∧
    (∀ e, run.1 = inl e → e = EventTarget.not_iterable) ∧
    (st_listeners st = None → run.1 = inr tt) ∧
    (∀ x, Z.abs (read_timestamp x) ≤ 2 ^ 53 →
       read_event envelope x
         = new_Event "read"
             (ReadFields (env_timestamp envelope)
                (mkReadData (read_timestamp x) (read_sender x)
                   (env_source envelope) (env_sourceDevice envelope)))).
Proof.
  cbn zeta.
  assert (Hexact : ∀ x, Z.abs (read_timestamp x) ≤ 2 ^ 53 →
            read_event envelope x
              = new_Event "read"
                  (ReadFields (env_timestamp envelope)
                     (mkReadData (read_timestamp x) (read_sender x)
                        (env_source envelope) (env_sourceDevice envelope)))).
  { intros x Hx. unfold read_event. by rewrite toNumber_exact. }
  revert st. induction read as [|x rest IH]; intros st.
  - exists 0%nat. cbn. rewrite app_nil_r. by repeat split.
  - cbn [handleRead]. fold (read_event envelope x). unfold bind.
    pose proof (dispatchEvent_dispatched (read_event envelope x) st) as Hd.
    pose proof (dispatchEvent_throws (read_event envelope x) st) as Ht.
    pose proof (dispatchEvent_listeners st (read_event envelope x)) as Hl.
    pose proof (dispatchEvent_no_listeners st (read_event envelope x)) as Hn.
    destruct (dispatchEvent (read_event envelope x) st) as [[e|ev'] st1];
      cbn [fst snd] in *.
    + exists 1%nat. cbn. rewrite take_0. split; [lia|]. split; [done|].
      split; [done|]. split; [by intros e' [= <-]; eapply Ht|].
      split; [|done]. intros Hnone. by specialize (Hn Hnone).
    + destruct (IH st1) as (n & Hn1 & Hd1 & Hok & Herr & Hfree & _).
      exists (S n). cbn [length take map]. split; [lia|].
      split; [by rewrite Hd1, Hd, <- app_assoc|].
      split; [by intros H; rewrite Hok|].
      split; [done|]. split; [|done].
      intros Hnone. apply Hfree. by rewrite Hl.
Qed.

(** A dispatch followed by [return]. *)
Lemma dispatch_tail_run ev st r st' :
  (dispatchEvent ev ;;; ret tt : M World unit) st = (r, st') →
  dispatched (st_trace st') = dispatched (st_trace st) ++ [EDispatch ev] ∧
  (∀ e, r = inl e → e = EventTarget.not_iterable) ∧
  (st_listeners st = None → r = inr tt).
Proof.
  unfold bind, ret.
  pose proof (dispatchEvent_dispatched ev st) as Hd.
  pose proof (dispatchEvent_throws ev st) as Ht.
  pose proof (dispatchEvent_no_listeners st ev) as Hn.
  destruct (dispatchEvent ev st) as [[e|ev'] st1]; cbn [fst snd] in *;
    intros [= <- <-]; (split; [done|]); split.
  - intros e' [= <-]. by eapply Ht.
  - intros Hnone. by specialize (Hn Hnone).
  - done.
  - done.
Qed.

Lemma end_session_step_dispatched (b : bool) a st :
  dispatched
    (st_trace ((if b then handleEndSession ext a else ret tt) st).2)
    = dispatched (st_trace st).
Proof.
  apply (emits_preserves is_dispatch).
  destruct b; [by apply emits_handleEndSession | apply emits_ret].
Qed.

(** X12.  The [message] event.  When [handleDataMessage] returns normally,
    the sessions of the source were closed first if the message ends the
    session, [processDecrypted] returned a message, and exactly one event
    was dispatched: the [message] event with the timestamp, source and
    source device of the envelope, the envelope's [keyChange], and that
    very message, every field of which is as [processDecrypted] leaves it
    (numeric [flags] and [expireTimer], body and group as they came,
    attachments fetched); [handleDataMessage] ends in the state the
    listeners left.  When it fails, it has dispatched nothing, unless the
    failure is the one of [dispatchEvent]. *)
Theorem handleDataMessage_event message envelope st r st' :
  handleDataMessage ext message envelope st = (r, st') →
  (r = inr tt →
   ∃ st1 message' st2 ev',
     (if ends_session ext message
      then handleEndSession ext (env_source envelope)
      else ret tt) st = (inr tt, st1) ∧
     processDecrypted ext message (env_source envelope) st1
       = (inr message', st2) ∧
     processed ext message message' ∧
     dispatchEvent (message_event envelope message') st2 = (inr ev', st') ∧
     dispatched (st_trace st')
       = dispatched (st_trace st)
           ++ [EDispatch (message_event envelope message')]) ∧
  (∀ e, r = inl e → e ≠ EventTarget.not_iterable →
     dispatched (st_trace st') = dispatched (st_trace st)).
Proof.
  unfold handleDataMessage. fold (ends_session ext message).
  unfold bind at 1.
  pose proof (end_session_step_dispatched (ends_session ext message)
                (env_source envelope) st) as H1.
  match type of H1 with context [st_trace (?m st).2] =>
    destruct (m st) as [[e1|[]] st1] eqn:Hend end; cbn [snd] in H1.
  { intros [= <- <-]. split; [done|]. by intros e [= <-] _. }
  unfold bind at 1.
  pose proof (emits_preserves is_dispatch
                (processDecrypted ext message (env_source envelope)) st1
                (emits_processDecrypted ext (λ e, is_dispatch e = false)
                   ltac:(done) _ _)) as H2.
  fold (dispatched (st_trace st1)) in H2.
  destruct (processDecrypted ext message (env_source envelope) st1)
    as [[e2|message'] st2] eqn:Hproc; cbn [snd] in H2.
  { intros [= <- <-]. split; [done|]. intros e [= <-] _.
    unfold dispatched. by rewrite H2. }
  fold (message_event envelope message'). intros Hrun.
  destruct (dispatch_tail_run _ _ _ _ Hrun) as (Hd & Herr & _).
  unfold dispatched in *. rewrite H2, H1 in Hd. split.
  - intros ->. unfold bind, ret in Hrun.
    destruct (dispatchEvent (message_event envelope message') st2)
      as [[e|ev'] st3] eqn:Hdis; [done|]. injection Hrun as <-.
    exists st1, message', st2, ev'.
    split; [done|]. split; [done|].
    split; [by eapply processDecrypted_processed|]. done.
  - intros e -> Hne. by destruct (Hne (Herr _ eq_refl)).
Qed.

(** X13.  The [sent] event.  When [handleSentMessage] returns normally,
    the sessions of the destination were closed first if the message of
    the transcript ends the session, [processDecrypted] returned a message
    for it, and exactly one event was dispatched: the [sent] event with
    the source and source device of the envelope, the destination of the
    transcript, its timestamp and (if it has one) its expiration start,
    both converted by [toNumber()], and that very message, every field of
    which is as [processDecrypted] leaves it.  The converted numbers are
    the transcript's own when their magnitude is at most [2^53].  A
    transcript without a message fails with a [TypeError] before anything
    is done; any other failure but the one of [dispatchEvent] comes before
    any event. *)
Theorem handleSentMessage_event sent envelope st r st' :
  handleSentMessage ext this sent envelope st = (r, st') →
  (r = inr tt →
   ∃ message st1 message' st2 ev',
     sent_message sent = Some message ∧
     (if ends_session ext message
      then handleEndSession ext (sent_destination sent)
      else ret tt) st = (inr tt, st1) ∧
     processDecrypted ext message (addr this) st1 = (inr message', st2) ∧
     processed ext message message' ∧
     dispatchEvent (sent_event envelope sent message') st2 = (inr ev', st') ∧
     dispatched (st_trace st')
       = dispatched (st_trace st)
           ++ [EDispatch (sent_event envelope sent message')]) ∧
  (sent_message sent = None →
   st' = st ∧ ∃ msg, r = inl (TypeError msg)) ∧
  (∀ e, r = inl e → e ≠ EventTarget.not_iterable →
     dispatched (st_trace st') = dispatched (st_trace st)) ∧
  (Z.abs (sent_timestamp sent) ≤ 2 ^ 53 →
   (∀ expire, sent_expire sent = Some expire → Z.abs expire ≤ 2 ^ 53) →
   ∀ message',
     sent_event envelope sent message'
       = new_Event "sent"
           (SentFields
              (mkSentData (env_source envelope) (env_sourceDevice envelope)
                 (sent_timestamp sent) (sent_destination sent)
                 message' (sent_expire sent)))).
Proof.
  assert (Hexact :
    Z.abs (sent_timestamp sent) ≤ 2 ^ 53 →
    (∀ expire, sent_expire sent = Some expire → Z.abs expire ≤ 2 ^ 53) →
    ∀ message',
      sent_event envelope sent message'
        = new_Event "sent"
            (SentFields
               (mkSentData (env_source envelope) (env_sourceDevice envelope)
                  (sent_timestamp sent) (sent_destination sent)
                  message' (sent_expire sent)))).
  { intros Hts Hexp message'. unfold sent_event.
    rewrite toNumber_exact by done.
    destruct (sent_expire sent) as [expire|]; [|done].
    cbn. by rewrite toNumber_exact by by apply Hexp. }
  unfold handleSentMessage.
  destruct (sent_message sent) as [message|].
  2:{ intros [= <- <-]. split; [done|]. split; [by eauto|].
      split; [by intros e _ _|done]. }
  fold (ends_session ext message). unfold bind at 1.
  pose proof (end_session_step_dispatched (ends_session ext message)
                (sent_destination sent) st) as H1.
  match type of H1 with context [st_trace (?m st).2] =>
    destruct (m st) as [[e1|[]] st1] eqn:Hend end; cbn [snd] in H1.
  { intros [= <- <-]. split; [done|]. split; [done|].
    split; [by intros e [= <-] _|done]. }
  unfold bind at 1.
  pose proof (emits_preserves is_dispatch
                (processDecrypted ext message (addr this)) st1
                (emits_processDecrypted ext (λ e, is_dispatch e = false)
                   ltac:(done) _ _)) as H2.
  fold (dispatched (st_trace st1)) in H2.
  destruct (processDecrypted ext message (addr this) st1)
    as [[e2|message'] st2] eqn:Hproc; cbn [snd] in H2.
  { intros [= <- <-]. split; [done|]. split; [done|].
    split; [|done]. intros e [= <-] _. unfold dispatched. by rewrite H2. }
  fold (sent_event envelope sent message'). intros Hrun.
  destruct (dispatch_tail_run _ _ _ _ Hrun) as (Hd & Herr & _).
  unfold dispatched in *. rewrite H2, H1 in Hd.
  split; [|split; [done|split; [|done]]].
  - intros ->. unfold bind, ret in Hrun.
    destruct (dispatchEvent (sent_event envelope sent message') st2)
      as [[e|ev'] st3] eqn:Hdis; [done|]. injection Hrun as <-.
    exists message, st1, message', st2, ev'.
    split; [done|]. split; [done|]. split; [done|].
    split; [by eapply processDecrypted_processed|]. done.
  - intros e -> Hne. by destruct (Hne (Herr _ eq_refl)).
Qed.

Lemma emits_sync_sent sent envelope :
  emits sync_effect (handleSentMessage ext this sent envelope).
Proof.
  unfold handleSentMessage.
  repeat first
    [ by apply emits_handleEndSession
    | by apply emits_processDecrypted
    | apply emits_dispatchEvent; cbn; by eauto
    | emits_auto ].
Qed.

Lemma emits_sync_read read envelope :
  emits sync_effect (handleRead read envelope : M World unit).
Proof.
  induction read as [|x rest IH]; cbn [handleRead]; [apply emits_ret|].
  apply emits_bind; [|by intros _].
  apply emits_dispatchEvent; cbn; by eauto.
Qed.

Lemma emits_sync message envelope :
  emits sync_effect (handleSyncMessage ext this message envelope).
Proof.
  unfold handleSyncMessage, handleBlocked.
  repeat first
    [ apply emits_sync_sent
    | apply emits_sync_read
    | emits_auto ].
Qed.

(** X14.  A sync message takes precedence over a data message.  When the
    decrypted content carries a [syncMessage], [handleContentMessage] is
    [handleSyncMessage] on it, whatever [dataMessage] the content carries
    besides: no [message] event is dispatched, only [sent] and [read]
    events can be. *)
Theorem handleContentMessage_sync_precedence
    envelope data st st1 content syncMessage :
  decrypt ext envelope (env_content envelope) st = (inr data, st1) →
  Content_decode ext data = inr content →
  content_syncMessage content = Some syncMessage →
  let run := handleContentMessage ext this envelope st in
  run = handleSyncMessage ext this syncMessage envelope st1 ∧
  dispatched_of "message" (st_trace run.2) = dispatched_of "message" (st_trace st) ∧
  ∃ new, st_trace run.2 = st_trace st ++ new ∧ Forall sync_effect new.
Proof.
  intros Hdec Hcontent Hsync run.
  assert (Hrun : run = handleSyncMessage ext this syncMessage envelope st1).
  { subst run. unfold handleContentMessage, bind, lift.
    by rewrite Hdec, Hcontent, Hsync. }
  split; [done|].
  assert (Hnew : ∃ new, st_trace run.2 = st_trace st ++ new ∧ Forall sync_effect new).
  { rewrite Hrun.
    destruct (emits_decrypt ext sync_effect ltac:(done) envelope
                (env_content envelope) st) as (new1 & Ht1 & Hn1).
    rewrite Hdec in Ht1. cbn [snd] in Ht1.
    destruct (emits_sync syncMessage envelope st1) as (new2 & Ht2 & Hn2).
    exists (new1 ++ new2). rewrite Ht2, Ht1, app_assoc. split; [done|].
    by apply Forall_app. }
  split; [|done].
  destruct Hnew as (new & -> & Hnew). unfold dispatched_of.
  apply filter_none_new. eapply Forall_impl; [exact Hnew|].
  intros [| ev | |]; cbn; try done.
  intros [H|H]; apply bool_decide_eq_false_2; rewrite H; discriminate.
Qed.

(** X15.  [decrypt] makes identity-key errors on the prekey path only.
    On a [CIPHERTEXT] envelope [decrypt] fails with the session cipher's
    own error, unchanged and whatever its class, and, when the session
    cipher returns, with [PaddingError] or not at all.  On a
    [PREKEY_BUNDLE] envelope a session failure whose message is "Unknown
    identity key" becomes an [IncomingIdentityKeyError] carrying the
    address and the identity key of the failure; any other failure of the
    session cipher is passed on unchanged, and so is a padding error of
    the plaintext.  Any other envelope type fails with "Unknown message
    type" before the session cipher is called.  So an identity-key error
    out of [decrypt] on an envelope that is no [PREKEY_BUNDLE] is the
    session cipher's own error on a [CIPHERTEXT] envelope. *)
Theorem decrypt_failures envelope ciphertext st :
  let source := env_source envelope in
  let device := env_sourceDevice envelope in
  let run := decrypt ext envelope ciphertext st in
  match env_type envelope with
  | CIPHERTEXT =>
      ∀ r w,
        decryptWhisperMessage ext source device ciphertext (st_world st)
          = (r, w) →
        run.1 = match r with
                | inl e0 => inl e0
                | inr plain => unpad plain
                end
  | PREKEY_BUNDLE =>
      ∀ r w,
        sessionDecryptPreKeyWhisperMessage ext source device ciphertext
          (st_world st) = (r, w) →
        run.1 = match r with
                | inl e0 =>
                    inl (if bool_decide (err_message e0 = "Unknown identity key")
                         then identity_key_error ext source device e0 else e0)
                | inr plain => unpad plain
                end
  | _ => run = (inl (Error "Unknown message type"), st)
  end ∧
  (∀ e, run.1 = inl e →
     env_type envelope ≠ PREKEY_BUNDLE →
     err_isIncomingIdentityKeyError e = true →
     env_type envelope = CIPHERTEXT ∧
     (decryptWhisperMessage ext source device ciphertext (st_world st)).1
       = inl e).
Proof.
  cbn zeta. unfold decrypt. split.
  - destruct (env_type envelope); try done.
    + intros r w Hs. unfold bind, call, lift. rewrite Hs.
      by destruct r as [e0|plain].
    + intros r w Hs.
      unfold decryptPreKeyWhisperMessage, try_catch, bind, call, lift.
      rewrite Hs. unfold identity_key_error, throw.
      destruct r as [e0|plain]; [by destruct (bool_decide _)|].
      destruct (unpad plain) as [e|out] eqn:Hu; [|done].
      apply unpad_error in Hu as ->. done.
  - intros e Hrun Hty Hik.
    destruct (env_type envelope); try done; try (by injection Hrun as <-).
    split; [done|]. revert Hrun. unfold bind, call, lift.
    destruct (decryptWhisperMessage ext _ _ _ _) as [[e0|plain] w]; cbn;
      [done|].
    intros Hpad. apply unpad_error in Hpad as ->. done.
Qed.

End HandlerFacts.

Lemma handleRead_one_event_per_entry_witness :
  let env := Samples.envelope CIPHERTEXT "+15550009999" 2 [x52; x80] in
  let late := mkRead (2 ^ 53 + 1) "+15550005555" in
  dispatched (st_trace (MessageReceiver.handleRead (Samples.reads ++ [late])
                          env Samples.fresh).2)
    = [EDispatch (read_event env (mkRead 10 "+15550003333"));
       EDispatch (read_event env (mkRead 11 "+15550004444"));
       EDispatch (read_event env late)] ∧
  read_event env (mkRead 10 "+15550003333")
    = new_Event "read"
        (ReadFields 1000 (mkReadData 10 "+15550003333" "+15550009999" 2)) ∧
  read_event env late
    = new_Event "read"
        (ReadFields 1000 (mkReadData (2 ^ 53) "+15550005555" "+15550009999" 2)).
Proof.
  cbn zeta.
  destruct (handleRead_one_event_per_entry
              (Samples.reads ++ [mkRead (2 ^ 53 + 1) "+15550005555"])
              (Samples.envelope CIPHERTEXT "+15550009999" 2 [x52; x80])
              Samples.fresh) as (n & _ & Hd & Hok & _ & Hfree & Hexact).
  rewrite (Hok (Hfree eq_refl)) in Hd.
  split; [exact Hd|]. split; [|vm_compute; reflexivity].
  apply (Hexact (mkRead 10 "+15550003333")). vm_compute. discriminate.
Defined.

Lemma handleDataMessage_event_witness :
  let env := Samples.envelope CIPHERTEXT "+15550001111" 1 [x68; x80] in
  ∃ message',
    dispatched (st_trace (MessageReceiver.handleDataMessage Samples.ext
                            Samples.with_attachment env Samples.fresh).2)
      = [EDispatch (message_event env message')] ∧
    processed Samples.ext Samples.with_attachment message' ∧
    message'
      = mkDataMessage (Some "pic") (Some 0) (Some 0) false
          (Some [mkAttachment 7 [x01] (Some [x2a; x01]);
                 mkAttachment 8 [x02] (Some [x2a; x02])]).
Proof.
  cbn zeta.
  destruct (handleDataMessage_event Samples.ext Samples.with_attachment
              (Samples.envelope CIPHERTEXT "+15550001111" 1 [x68; x80])
              Samples.fresh _ _ eq_refl) as (Hok & _).
  destruct Hok as (st1 & message' & st2 & ev' & Hend & Hproc & Hfields & _ & Hd);
    [vm_compute; reflexivity|].
  exists message'. split; [exact Hd|]. split; [exact Hfields|].
  injection Hend as <-. vm_compute in Hproc. injection Hproc as <- _.
  reflexivity.
Defined.

Lemma handleSentMessage_event_witness :
  let env := Samples.envelope CIPHERTEXT "+15550009999" 2 [x53; x80] in
  ∃ message',
    dispatched (st_trace (MessageReceiver.handleSentMessage Samples.ext
                            Samples.this Samples.sent_hi env Samples.fresh).2)
      = [EDispatch (sent_event env Samples.sent_hi message')] ∧
    processed Samples.ext Fixture.hi message' ∧
    sent_event env Samples.sent_hi message'
      = new_Event "sent"
          (SentFields
             (mkSentData "+15550009999" 2 2000 "+15550002222" message' None)).
Proof.
  cbn zeta.
  destruct (handleSentMessage_event Samples.ext Samples.this Samples.sent_hi
              (Samples.envelope CIPHERTEXT "+15550009999" 2 [x53; x80])
              Samples.fresh _ _ eq_refl) as (Hok & _ & _ & Hexact).
  destruct Hok as (message & st1 & message' & st2 & ev' & Hmsg & _ & _
                   & Hfields & _ & Hd);
    [vm_compute; reflexivity|].
  injection Hmsg as <-.
  exists message'. split; [exact Hd|]. split; [exact Hfields|].
  apply Hexact; [vm_compute; discriminate | discriminate].
Defined.

Lemma handleContentMessage_sync_precedence_witness :
  let env := Samples.envelope CIPHERTEXT "+15550009999" 2 [x53; x80] in
  let run := MessageReceiver.handleContentMessage Samples.ext Samples.this env
               Samples.fresh in
  run.1 = inr tt ∧ dispatched_of "message" (st_trace run.2) = [] ∧
  length (dispatched_of "sent" (st_trace run.2)) = 1%nat.
Proof.
  cbn zeta.
  destruct (handleContentMessage_sync_precedence Samples.ext Samples.this
              (Samples.envelope CIPHERTEXT "+15550009999" 2 [x53; x80])
              [x53] Samples.fresh
              (mkState [("decrypt", 0)] None [])
              (mkContent (Some (mkSyncMessage (Some Samples.sent_hi) None None
                                  None None None))
                         (Some Fixture.hi))
              (mkSyncMessage (Some Samples.sent_hi) None None None None None))
    as (_ & Hnone & _); [reflexivity | reflexivity | reflexivity |].
  split; [vm_compute; reflexivity|]. split; [exact Hnone|].
  vm_compute; reflexivity.
Defined.

Lemma decrypt_failures_witness :
  (MessageReceiver.decrypt Samples.ext
     (Samples.envelope CIPHERTEXT "+15550001111" 1 [x55]) (Some [x55])
     Samples.fresh).1 = inl (Error "Unknown identity key") ∧
  (MessageReceiver.decrypt Samples.ext
     (Samples.envelope PREKEY_BUNDLE "+15550001111" 1 [x55]) (Some [x55])
     Samples.fresh).1
    = inl (identity_key_error Samples.ext "+15550001111" 1
             (Error "Unknown identity key")).
Proof.
  split.
  - destruct (decrypt_failures Samples.ext
                (Samples.envelope CIPHERTEXT "+15550001111" 1 [x55])
                (Some [x55]) Samples.fresh) as [H _].
    cbn [Samples.envelope env_type] in H.
    exact (H _ _ eq_refl).
  - destruct (decrypt_failures Samples.ext
                (Samples.envelope PREKEY_BUNDLE "+15550001111" 1 [x55])
                (Some [x55]) Samples.fresh) as [H _].
    cbn [Samples.envelope env_type] in H.
    exact (H _ _ eq_refl).
Defined.

(** ** The error taxonomy of [handleEnvelope] *)

Section EnvelopeFacts.
Context {World : Type} (ext : Externals World) (this : Identity).
Implicit Types (st : State World) (envelope : Envelope).

Import MessageReceiver.

(** A dispatch followed by [throw]. *)
Lemma dispatch_throw_run ev (e : JSError) st :
  let run := (dispatchEvent ev ;;; (throw e : M World unit)) st in
  dispatched (st_trace run.2) = dispatched (st_trace st) ++ [EDispatch ev] ∧
  (run.1 = inl e ∨ run.1 = inl EventTarget.not_iterable) ∧
  (st_listeners st = None ∨ is_Some (listener_list st (ev_type ev)) →
   run.1 = inl e) ∧
  (is_Some (st_listeners st) → listener_list st (ev_type ev) = None →
   run.1 = inl EventTarget.not_iterable).
Proof.
  cbn zeta. unfold bind, throw.
  pose proof (dispatchEvent_dispatched ev st) as Hd.
  pose proof (dispatchEvent_throws ev st) as Ht.
  pose proof (dispatchEvent_no_listeners st ev) as Hn.
  assert (Hundef : is_Some (st_listeners st) →
                   listener_list st (ev_type ev) = None →
                   (dispatchEvent ev st).1 = inl EventTarget.not_iterable).
  { intros [m Hm] Hnone. unfold listener_list in Hnone.
    rewrite Hm in Hnone. cbn in Hnone.
    by rewrite (dispatchEvent_undefined_list st ev m). }
  destruct (dispatchEvent ev st) as [[e'|ev'] st1] eqn:Hrun; cbn [fst snd] in *.
  - split; [done|]. split; [right; f_equal; by eapply Ht|].
    split; [|intros Hs Hno; specialize (Hundef Hs Hno); congruence].
    intros [Hnone|[cbs Hsome]]; [by specialize (Hn Hnone)|].
    destruct (call_listeners_returns cbs ev (logged (EDispatch ev) st))
      as (ev2 & st2 & Hcall).
    unfold listener_list in Hsome.
    destruct (st_listeners st) as [m|] eqn:Hm; [|done]. cbn in Hsome.
    rewrite (dispatchEvent_defined_list _ _ _ _ Hm Hsome), Hcall in Hrun. done.
  - split; [done|]. split; [by left|]. split; [done|].
    intros Hsome Hnone. by specialize (Hundef Hsome Hnone).
Qed.

(** X16.  Unexpected errors are reported, then raised.  When the handler
    of an envelope fails with an error that is no counter error, no
    identity-key error of a first activation and no [TextSecureError],
    [handleEnvelope] dispatches exactly one [error] event, carrying the
    error and the envelope, and fails: with that error when the [error]
    event could be delivered (no listeners at all, or an [error] listener
    list), else with the error of [dispatchEvent]. *)
Theorem handleEnvelope_unexpected_error envelope reentrant handler e st st1 :
  select_handler ext this envelope = inr handler →
  handler envelope (logged (EHandleEnvelope envelope reentrant) st) = (inl e, st1) →
  ¬ counter_error e →
  err_isIncomingIdentityKeyError e = false ∨ reentrant = true →
  err_isTextSecureError e = false →
  let run := handleEnvelope ext this envelope reentrant st in
  dispatched (st_trace run.2)
    = dispatched (st_trace st1) ++ [EDispatch (error_event envelope e)] ∧
  (run.1 = inl e ∨ run.1 = inl EventTarget.not_iterable) ∧
  (st_listeners st1 = None ∨ is_Some (listener_list st1 "error") →
   run.1 = inl e) ∧
  (is_Some (st_listeners st1) → listener_list st1 "error" = None →
   run.1 = inl EventTarget.not_iterable).
Proof.
  intros Hsel Hrun Hname Hik Htse run. subst run.
  rewrite handleEnvelope_run. cbn zeta. rewrite Hsel, Hrun.
  unfold handleEnvelope_catch.
  rewrite bool_decide_eq_false_2 by done.
  assert (Hcond : err_isIncomingIdentityKeyError e && negb reentrant = false).
  { destruct Hik as [-> | ->]; [done|apply andb_false_r]. }
  rewrite Hcond, Htse.
  apply (dispatch_throw_run (error_event envelope e) e st1).
Qed.

(** X17.  Protocol errors are dropped.  When the handler fails with a
    [TextSecureError] that is no counter error and no identity-key error of
    a first activation, [handleEnvelope] logs a warning and returns
    normally: no [error] event, no other event.  An identity-key error of
    the re-entered activation falls here when its class extends
    [TextSecureError]. *)
Theorem handleEnvelope_suppressed_error envelope reentrant handler e st st1 :
  select_handler ext this envelope = inr handler →
  handler envelope (logged (EHandleEnvelope envelope reentrant) st) = (inl e, st1) →
  ¬ counter_error e →
  err_isIncomingIdentityKeyError e = false ∨ reentrant = true →
  err_isTextSecureError e = true →
  let run := handleEnvelope ext this envelope reentrant st in
  run = (inr tt, logged (EConsole "warn" "Supressing TextSecureError:") st1) ∧
  dispatched (st_trace run.2) = dispatched (st_trace st1).
Proof.
  intros Hsel Hrun Hname Hik Htse run. subst run.
  rewrite handleEnvelope_run. cbn zeta. rewrite Hsel, Hrun.
  unfold handleEnvelope_catch.
  rewrite bool_decide_eq_false_2 by done.
  assert (Hcond : err_isIncomingIdentityKeyError e && negb reentrant = false).
  { destruct Hik as [-> | ->]; [done|apply andb_false_r]. }
  rewrite Hcond, Htse. split; [done|].
  unfold bind, console, emit, ret, dispatched. cbn.
  rewrite filter_app. cbn. by rewrite app_nil_r.
Qed.

(** X18.  An envelope that carries nothing.  For an envelope that is no
    receipt and has neither content nor legacy message, [handleEnvelope]
    fails before its [try] block: no [error] event is dispatched, and
    [handleRequest], when the envelope came in a request, still answers
    200 and fails with that error. *)
Theorem handleEnvelope_empty_envelope envelope reentrant st :
  env_type envelope ≠ RECEIPT →
  env_content envelope = None →
  env_legacyMessage envelope = None →
  let e := Error "Received message with no content and no legacyMessage" in
  handleEnvelope ext this envelope reentrant st
    = (inl e, logged (EHandleEnvelope envelope reentrant) st) ∧
  (∀ request,
     req_verb request = "PUT" → req_path request = "/api/v1/message" →
     decodeFrame ext this request = inr envelope →
     handleRequest ext this request st
       = (inl e, logged (ERespond 200 "OK")
                   (logged (EHandleEnvelope envelope false) st))).
Proof.
  intros Hty Hc Hl e.
  assert (Hsel : select_handler ext this envelope = inl e).
  { unfold select_handler. rewrite Hc, Hl. by destruct (env_type envelope). }
  assert (Hrun : ∀ r, handleEnvelope ext this envelope r st
                      = (inl e, logged (EHandleEnvelope envelope r) st)).
  { intros r. rewrite handleEnvelope_run. cbn zeta. by rewrite Hsel. }
  split; [apply Hrun|].
  intros request Hverb Hpath Hdec.
  rewrite handleRequest_accepted, Hdec by done.
  unfold try_finally. by rewrite Hrun.
Qed.

(** X19.  Receipts.  An envelope of type [RECEIPT] is never decrypted,
    whatever content it carries: [handleEnvelope] dispatches a [receipt]
    event with the envelope and, when that event can be delivered, returns
    normally in the state the listeners left.  On a target with listeners
    but no [receipt] list the [TypeError] of [dispatchEvent] is then
    treated as an unexpected error of the handler: an [error] event
    carrying it follows and [handleEnvelope] fails with it. *)
Theorem handleEnvelope_receipt envelope reentrant st :
  env_type envelope = RECEIPT →
  let receipt := new_Event "receipt" (ReceiptFields envelope) in
  let st0 := logged (EHandleEnvelope envelope reentrant) st in
  let run := handleEnvelope ext this envelope reentrant st in
  (st_listeners st = None ∨ is_Some (listener_list st "receipt") →
   run = (inr tt, (dispatchEvent receipt st0).2)) ∧
  (is_Some (st_listeners st) → listener_list st "receipt" = None →
   run.1 = inl EventTarget.not_iterable ∧
   dispatched (st_trace run.2)
     = dispatched (st_trace st)
         ++ [EDispatch receipt;
             EDispatch (error_event envelope EventTarget.not_iterable)]).
Proof.
  intros Hty receipt st0 run.
  assert (Hsel : select_handler ext this envelope
                 = inr (handleDeliveryReceipt : Envelope → M World unit)).
  { unfold select_handler. by rewrite Hty. }
  assert (Hrun : run =
    match dispatchEvent receipt st0 with
    | (inr _, st1) => (inr tt, st1)
    | (inl e, st1) =>
        handleEnvelope_catch (handleEnvelope ext this) envelope reentrant e st1
    end).
  { subst run. rewrite handleEnvelope_run. cbn zeta. fold st0. rewrite Hsel.
    unfold handleDeliveryReceipt. fold receipt. unfold bind at 1, ret.
    by destruct (dispatchEvent receipt st0) as [[e|ev'] st1]. }
  rewrite Hrun. clear Hrun. split.
  - intros Hcase.
    assert (Hok : ∃ ev' st1, dispatchEvent receipt st0 = (inr ev', st1)).
    { destruct Hcase as [Hnone|[cbs Hsome]].
      - rewrite dispatchEvent_no_listeners by done. by eexists _, _.
      - unfold listener_list in Hsome.
        destruct (st_listeners st) as [m|] eqn:Hm; [|done]. cbn in Hsome.
        rewrite (dispatchEvent_defined_list st0 receipt m cbs) by done.
        apply call_listeners_returns. }
    destruct Hok as (ev' & st1 & ->). done.
  - intros [m Hm] Hnone. unfold listener_list in Hnone. rewrite Hm in Hnone.
    cbn in Hnone.
    rewrite (dispatchEvent_undefined_list st0 receipt m) by done.
    unfold handleEnvelope_catch. cbn [err_name EventTarget.not_iterable
      TypeError err_isIncomingIdentityKeyError err_isTextSecureError andb].
    rewrite bool_decide_eq_false_2 by discriminate.
    fold (error_event envelope EventTarget.not_iterable).
    destruct (dispatch_throw_run (error_event envelope EventTarget.not_iterable)
                EventTarget.not_iterable (logged (EDispatch receipt) st0))
      as (Hd & Hr & _).
    split; [by destruct Hr|].
    rewrite Hd. unfold dispatched, st0, logged. cbn.
    rewrite !filter_app. cbn. by rewrite app_nil_r, <- app_assoc.
Qed.

(** X20.  Identity re-entry is bounded.  An activation of [handleEnvelope]
    with [reentrant] true records itself and no further activation, and
    dispatches no [keychange] event.  An activation with [reentrant] false
    is followed by at most one activation with [reentrant] true, and that
    one works on the envelope with [keyChange] set to [true]. *)
Theorem identity_reentry_bounded envelope st :
  let first := st_trace (handleEnvelope ext this envelope false st).2 in
  let again := st_trace (handleEnvelope ext this envelope true st).2 in
  reentries again = reentries (st_trace st) ++ [EHandleEnvelope envelope true] ∧
  dispatched_of "keychange" again = dispatched_of "keychange" (st_trace st) ∧
  (reentries first = reentries (st_trace st) ∨
   reentries first
     = reentries (st_trace st)
         ++ [EHandleEnvelope (set_keyChange true envelope) true]).
Proof.
  cbn zeta. split; [apply handleEnvelope_reentrant_once|].
  split; [apply handleEnvelope_reentrant_no_keychange|].
  apply handleEnvelope_reentry_bounded.
Qed.

(** X21.  The key-change protocol.  When the handler of a first activation
    fails with an identity-key error, exactly one [keychange] event has
    been dispatched by the end of [handleEnvelope], carrying the address
    and identity key of the error.  When its dispatch returns with
    [accepted] set, [handleEnvelope] ends as its re-entered activation on
    the envelope with [keyChange] set to [true] ends; when it returns with
    [accepted] not set, the error is dropped and [handleEnvelope] returns
    normally; when it throws, which it does only for an undefined
    [keychange] listener list, [handleEnvelope] fails with that
    [TypeError]. *)
Theorem keychange_event_and_retry envelope handler e st st1 :
  select_handler ext this envelope = inr handler →
  handler envelope (logged (EHandleEnvelope envelope false) st) = (inl e, st1) →
  ¬ counter_error e →
  err_isIncomingIdentityKeyError e = true →
  let run := handleEnvelope ext this envelope false st in
  dispatched_of "keychange" (st_trace run.2)
    = dispatched_of "keychange" (st_trace st)
        ++ [EDispatch (keychange_event e)] ∧
  (∀ ev st2,
     dispatchEvent (keychange_event e) st1 = (inr ev, st2) →
     (ev_accepted ev = true →
      run = handleEnvelope ext this (set_keyChange true envelope) true st2) ∧
     (ev_accepted ev = false → run = (inr tt, st2))) ∧
  (∀ e' st2,
     dispatchEvent (keychange_event e) st1 = (inl e', st2) →
     run = (inl e', st2) ∧ e' = EventTarget.not_iterable).
Proof.
  intros Hsel Hrun Hname Hik run. subst run.
  split; [by eapply handleEnvelope_keychange_once|].
  rewrite (handleEnvelope_identity_key_error _ _ _ _ _ _ _ Hsel Hrun Hname Hik).
  fold (keychange_event e). split.
  - intros ev st2 Hdis. rewrite Hdis. split; by intros ->.
  - intros e' st2 Hdis. rewrite Hdis. split; [done|].
    by eapply dispatchEvent_throws.
Qed.

End EnvelopeFacts.

Lemma handleEnvelope_unexpected_error_witness :
  let env := Samples.envelope CIPHERTEXT "+15550001111" 1 [x55] in
  let run := MessageReceiver.handleEnvelope Samples.ext Samples.this env false
               Samples.fresh in
  run.1 = inl (Error "Unknown identity key") ∧
  dispatched (st_trace run.2)
    = [EDispatch (error_event env (Error "Unknown identity key"))].
Proof.
  cbn zeta.
  edestruct (handleEnvelope_unexpected_error Samples.ext Samples.this
               (Samples.envelope CIPHERTEXT "+15550001111" 1 [x55]) false
               (MessageReceiver.handleContentMessage Samples.ext Samples.this)
               (Error "Unknown identity key") Samples.fresh)
    as (Hd & _ & He).
  - reflexivity.
  - vm_compute. reflexivity.
  - unfold counter_error. cbn. discriminate.
  - left. reflexivity.
  - reflexivity.
  - split; [apply He; left; reflexivity | exact Hd].
Defined.

Lemma handleEnvelope_suppressed_error_witness :
  (MessageReceiver.handleEnvelope Fixture.ext Fixture.this
     Fixture.prekey_envelope true Fixture.fresh).1 = inr tt.
Proof.
  edestruct (handleEnvelope_suppressed_error Fixture.ext Fixture.this
               Fixture.prekey_envelope true
               (MessageReceiver.handleContentMessage Fixture.ext Fixture.this)
               (identity_key_error Fixture.ext "+15550001111" 1
                  Fixture.UnknownIdentityKey)
               Fixture.fresh)
    as (Hrun & _).
  - reflexivity.
  - vm_compute. reflexivity.
  - unfold counter_error. cbn. discriminate.
  - right. reflexivity.
  - reflexivity.
  - rewrite Hrun. reflexivity.
Defined.

Lemma handleEnvelope_empty_envelope_witness :
  let env := mkEnvelope CIPHERTEXT "+15550001111" 1 1000 None None None in
  dispatched (st_trace (MessageReceiver.handleEnvelope Samples.ext Samples.this
                          env false Samples.fresh).2) = [].
Proof.
  cbn zeta.
  destruct (handleEnvelope_empty_envelope Samples.ext Samples.this
              (mkEnvelope CIPHERTEXT "+15550001111" 1 1000 None None None)
              false Samples.fresh) as (Hrun & _);
    [discriminate | reflexivity | reflexivity |].
  rewrite Hrun. reflexivity.
Defined.

Lemma handleEnvelope_receipt_witness :
  let env := Samples.envelope RECEIPT "+15550001111" 1 [x68; x80] in
  let run := MessageReceiver.handleEnvelope Samples.ext Samples.this env false
               Samples.fresh in
  run.1 = inr tt ∧ st_world run.2 = [].
Proof.
  cbn zeta.
  destruct (handleEnvelope_receipt Samples.ext Samples.this
              (Samples.envelope RECEIPT "+15550001111" 1 [x68; x80])
              false Samples.fresh) as (Hok & _); [reflexivity|].
  rewrite Hok; [split; reflexivity | left; reflexivity].
Defined.

Lemma keychange_event_and_retry_witness :
  let run := MessageReceiver.handleEnvelope Fixture.ext Fixture.this
               Fixture.prekey_envelope false Fixture.accepting in
  length (dispatched_of "keychange" (st_trace run.2)) = 1%nat ∧
  run.1 = inr tt ∧
  length (dispatched_of "message" (st_trace run.2)) = 1%nat.
Proof.
  cbn zeta.
  edestruct (keychange_event_and_retry Fixture.ext Fixture.this
               Fixture.prekey_envelope
               (MessageReceiver.handleContentMessage Fixture.ext Fixture.this)
               (identity_key_error Fixture.ext "+15550001111" 1
                  Fixture.UnknownIdentityKey)
               Fixture.accepting)
    as (Hone & Hret & _).
  - reflexivity.
  - vm_compute. reflexivity.
  - unfold counter_error. cbn. discriminate.
  - reflexivity.
  - split; [rewrite Hone; reflexivity|].
    edestruct Hret as [Hacc _]; [vm_compute; reflexivity|].
    rewrite Hacc by reflexivity. split; vm_compute; reflexivity.
Defined.

(** ** Delivery is the last step of a handler *)

Section DeliveryFacts.
Context {World : Type} (ext : Externals World) (this : Identity).
Implicit Types (st : State World) (envelope : Envelope).

Import MessageReceiver.

Lemma dispatched_of_dispatched type (t : list Effect) :
  dispatched_of type t = filter (is_dispatch_of type) (dispatched t).
Proof.
  unfold dispatched_of, dispatched. rewrite list_filter_filter.
  apply list_filter_iff. intros [| ev | |]; cbn; tauto.
Qed.

Lemma fails_early_throw {A} e : fails_early (throw e : M World A).
Proof. unfold throw. by intros st e' st' [= <- <-] _. Qed.

Lemma fails_early_of_console {A} (m : M World A) :
  emits is_console m → fails_early m.
Proof.
  intros Hm st e st' Hrun _.
  pose proof (emits_preserves is_dispatch m st) as H. rewrite Hrun in H.
  apply H. eapply emits_mono; [|exact Hm]. by intros [].
Qed.

Lemma fails_early_of_dispatch {A} (m : M World A) :
  throws_only_dispatch m → fails_early m.
Proof. intros Hm st e st' Hrun Hne. by destruct (Hne (Hm _ _ _ Hrun)). Qed.

Lemma fails_early_bind {A B} (m : M World A) (k : A → M World B) :
  emits is_console m → (∀ a, fails_early (k a)) → fails_early (bind m k).
Proof.
  intros Hm Hk st e st'. unfold bind.
  pose proof (emits_preserves is_dispatch m st) as Hpre.
  destruct (m st) as [[e1|a] st1] eqn:Hrun; cbn in Hpre.
  - intros [= <- <-] _. apply Hpre. eapply emits_mono; [|exact Hm]. by intros [].
  - intros Hrun2 He. unfold dispatched.
    rewrite <- Hpre; [by eapply Hk|].
    eapply emits_mono; [|exact Hm]. by intros [].
Qed.

Lemma throws_only_dispatch_tail ev :
  throws_only_dispatch (dispatchEvent ev ;;; ret tt : M World unit).
Proof.
  intros st e st'. unfold bind, ret.
  pose proof (dispatchEvent_throws ev st) as Ht.
  destruct (dispatchEvent ev st) as [[e'|ev'] st1]; [|done].
  intros [= <- _]. by eapply Ht.
Qed.

Lemma throws_only_dispatch_handleRead read envelope :
  throws_only_dispatch (handleRead read envelope : M World unit).
Proof.
  induction read as [|x rest IH]; cbn [handleRead]; [by intros st e st'|].
  intros st e st'. unfold bind.
  pose proof (dispatchEvent_throws (read_event envelope x) st) as Ht.
  fold (read_event envelope x).
  destruct (dispatchEvent (read_event envelope x) st) as [[e'|ev'] st1].
  - intros [= <- _]. by eapply Ht.
  - apply IH.
Qed.

Lemma fails_early_handleDataMessage message envelope :
  fails_early (handleDataMessage ext message envelope).
Proof.
  unfold handleDataMessage. apply fails_early_bind.
  { destruct (truthy _); [by apply emits_handleEndSession | apply emits_ret]. }
  intros _. apply fails_early_bind; [by apply emits_processDecrypted|].
  intros message'. apply fails_early_of_dispatch, throws_only_dispatch_tail.
Qed.

Lemma fails_early_handleSentMessage sent envelope :
  fails_early (handleSentMessage ext this sent envelope).
Proof.
  unfold handleSentMessage. destruct (sent_message sent) as [message|];
    [|apply fails_early_throw].
  apply fails_early_bind.
  { destruct (truthy _); [by apply emits_handleEndSession | apply emits_ret]. }
  intros _. apply fails_early_bind; [by apply emits_processDecrypted|].
  intros message'. apply fails_early_of_dispatch, throws_only_dispatch_tail.
Qed.

Lemma fails_early_console_throw level msg e :
  fails_early (console level msg ;;; throw e : M World unit).
Proof.
  apply fails_early_of_console. apply emits_bind; [by apply emits_console|].
  intros _. apply emits_throw.
Qed.

Lemma fails_early_handleSyncMessage message envelope :
  fails_early (handleSyncMessage ext this message envelope).
Proof.
  unfold handleSyncMessage, handleBlocked.
  repeat match goal with
  | |- fails_early (if ?b then _ else _) => destruct b
  | |- fails_early (match ?x with _ => _ end) => destruct x
  | |- fails_early (throw _) => apply fails_early_throw
  | |- fails_early (bind (console _ _) _) => apply fails_early_console_throw
  | |- fails_early (handleSentMessage _ _ _ _) => apply fails_early_handleSentMessage
  | |- fails_early (handleRead _ _) =>
      apply fails_early_of_dispatch, throws_only_dispatch_handleRead
  end.
Qed.

Lemma fails_early_handleContentMessage envelope :
  fails_early (handleContentMessage ext this envelope).
Proof.
  unfold handleContentMessage.
  apply fails_early_bind; [by apply emits_decrypt|]. intros data.
  apply fails_early_bind; [apply emits_lift|]. intros content.
  destruct (content_syncMessage content); [apply fails_early_handleSyncMessage|].
  destruct (content_dataMessage content); [apply fails_early_handleDataMessage|].
  apply fails_early_throw.
Qed.

Lemma fails_early_handleLegacyMessage envelope :
  fails_early (handleLegacyMessage ext envelope).
Proof.
  unfold handleLegacyMessage.
  apply fails_early_bind; [by apply emits_decrypt|]. intros data.
  apply fails_early_bind; [apply emits_lift|]. intros message.
  apply fails_early_handleDataMessage.
Qed.

Lemma fails_early_selected_handler envelope handler :
  select_handler ext this envelope = inr handler → fails_early (handler envelope).
Proof.
  intros H. destruct (select_handler_cases _ _ _ _ H) as [->|[->| ->]].
  - apply fails_early_of_dispatch, throws_only_dispatch_tail.
  - apply fails_early_handleContentMessage.
  - apply fails_early_handleLegacyMessage.
Qed.

(** X22.  Delivery is the last step of a handler.  When the handler of an
    envelope fails with any error but the [TypeError] of [dispatchEvent]
    itself (an error of the session store, of a decoder, of the service, a
    padding error, a refused sync message), it has dispatched no event:
    listeners never see an envelope whose handling then fails for such a
    reason.  In that case the events [handleEnvelope] has dispatched by its
    end are those of its catch block alone. *)
Theorem handler_failure_precedes_events envelope reentrant handler e st st1 :
  select_handler ext this envelope = inr handler →
  handler envelope (logged (EHandleEnvelope envelope reentrant) st) = (inl e, st1) →
  e ≠ EventTarget.not_iterable →
  dispatched (st_trace st1) = dispatched (st_trace st) ∧
  (handleEnvelope ext this envelope reentrant st
     = handleEnvelope_catch (handleEnvelope ext this) envelope reentrant e st1).
Proof.
  intros Hsel Hrun Hne. split.
  - rewrite (fails_early_selected_handler _ _ Hsel _ _ _ Hrun Hne).
    unfold dispatched, logged. cbn. rewrite filter_app. cbn. by rewrite app_nil_r.
  - rewrite handleEnvelope_run. cbn zeta. by rewrite Hsel, Hrun.
Qed.

End DeliveryFacts.

Lemma handler_failure_precedes_events_witness :
  let env := Samples.envelope CIPHERTEXT "+15550001111" 1 [x68; x01] in
  dispatched
    (st_trace (MessageReceiver.handleContentMessage Samples.ext Samples.this env
                 (logged (EHandleEnvelope env false) Samples.fresh)).2) = [].
Proof.
  cbn zeta.
  edestruct (handler_failure_precedes_events Samples.ext Samples.this
               (Samples.envelope CIPHERTEXT "+15550001111" 1 [x68; x01]) false
               (MessageReceiver.handleContentMessage Samples.ext Samples.this)
               PaddingError Samples.fresh) as (Hnone & _).
  - reflexivity.
  - vm_compute. reflexivity.
  - discriminate.
  - vm_compute. reflexivity.
Defined.

(** ** One message per envelope *)

Section MessageCount.
Context {World : Type} (ext : Externals World) (this : Identity).
Implicit Types (st : State World) (envelope : Envelope).

Import MessageReceiver.

Lemma messages_at_most_mono {A} n n' (m : M World A) :
  (n ≤ n')%nat → messages_at_most n m → messages_at_most n' m.
Proof.
  intros Hle Hm st. destruct (Hm st) as (l & Hl & Hlen).
  exists l. split; [done|lia].
Qed.

Lemma messages_at_most_of_emits {A} (m : M World A) :
  emits (λ e, is_dispatch_of "message" e = false) m → messages_at_most 0 m.
Proof.
  intros Hm st. exists []. rewrite app_nil_r. split; [|done].
  by apply (emits_preserves (is_dispatch_of "message")).
Qed.

Lemma messages_at_most_bind {A B} n (m : M World A) (k : A → M World B) :
  messages_at_most 0 m → (∀ a, messages_at_most n (k a)) →
  messages_at_most n (bind m k).
Proof.
  intros Hm Hk st. unfold bind.
  destruct (Hm st) as (l0 & Hl0 & Hlen0).
  destruct l0; [|cbn in Hlen0; lia]. rewrite app_nil_r in Hl0.
  destruct (m st) as [[e|a] st1]; cbn [snd] in *.
  - exists []. rewrite app_nil_r. split; [done|cbn; lia].
  - destruct (Hk a st1) as (l & Hl & Hlen). exists l. by rewrite Hl, Hl0.
Qed.

Lemma messages_at_most_dispatch_tail ev :
  messages_at_most 1 (dispatchEvent ev ;;; ret tt : M World unit).
Proof.
  intros st. unfold bind, ret.
  pose proof (dispatchEvent_dispatched_of "message" ev st) as Hd.
  exists (if bool_decide (ev_type ev = "message") then [EDispatch ev] else []).
  split; [|destruct (bool_decide _); cbn; lia].
  by destruct (dispatchEvent ev st) as [[e|ev'] st1].
Qed.

Lemma not_message_of_console e : is_console e → is_dispatch_of "message" e = false.
Proof. by destruct e. Qed.

Lemma not_message_of_sync e : sync_effect e → is_dispatch_of "message" e = false.
Proof.
  destruct e as [| ev | |]; cbn; try done.
  intros [H|H]; apply bool_decide_eq_false_2; rewrite H; discriminate.
Qed.

Lemma messages_at_most_handleDataMessage message envelope :
  messages_at_most 1 (handleDataMessage ext message envelope).
Proof.
  unfold handleDataMessage. apply messages_at_most_bind.
  { apply messages_at_most_of_emits.
    destruct (truthy _); [by apply emits_handleEndSession | apply emits_ret]. }
  intros _. apply messages_at_most_bind.
  { apply messages_at_most_of_emits. by apply emits_processDecrypted. }
  intros message'. apply messages_at_most_dispatch_tail.
Qed.

Lemma messages_at_most_selected_handler envelope handler :
  select_handler ext this envelope = inr handler →
  messages_at_most 1 (handler envelope).
Proof.
  intros H. destruct (select_handler_cases _ _ _ _ H) as [->|[->| ->]].
  - apply messages_at_most_dispatch_tail.
  - unfold handleContentMessage. apply messages_at_most_bind.
    { apply messages_at_most_of_emits. by apply emits_decrypt. }
    intros data. apply messages_at_most_bind.
    { apply messages_at_most_of_emits. apply emits_lift. }
    intros content.
    destruct (content_syncMessage content) as [syncMessage|].
    { apply (messages_at_most_mono 0); [lia|].
      apply messages_at_most_of_emits.
      eapply emits_mono; [|apply emits_sync]. apply not_message_of_sync. }
    destruct (content_dataMessage content);
      [apply messages_at_most_handleDataMessage|].
    apply (messages_at_most_mono 0); [lia|].
    apply messages_at_most_of_emits, emits_throw.
  - unfold handleLegacyMessage. apply messages_at_most_bind.
    { apply messages_at_most_of_emits. by apply emits_decrypt. }
    intros data. apply messages_at_most_bind.
    { apply messages_at_most_of_emits. apply emits_lift. }
    intros message. apply messages_at_most_handleDataMessage.
Qed.

(** The catch block and the body of [handleEnvelope] emit effects of a
    class that holds their own effects and those of the one call they may
    make. *)
Lemma emits_catch_gen P (self : Envelope → bool → M World unit)
    envelope reentrant e :
  (∀ l s, P (EConsole l s)) →
  (reentrant = false → P (EDispatch (keychange_event e))) →
  P (EDispatch (error_event envelope e)) →
  (reentrant = false → emits P (self (set_keyChange true envelope) true)) →
  emits P (handleEnvelope_catch self envelope reentrant e).
Proof.
  intros Hc Hk He Hself. unfold handleEnvelope_catch.
  destruct (bool_decide _).
  { apply emits_bind; [by apply emits_console|]. intros _. apply emits_ret. }
  destruct reentrant; rewrite ?andb_false_r, ?andb_true_r; cbn [negb].
  - destruct (err_isTextSecureError e).
    + apply emits_bind; [by apply emits_console|]. intros _. apply emits_ret.
    + apply emits_bind; [by apply emits_dispatchEvent|]. intros _.
      apply emits_throw.
  - destruct (err_isIncomingIdentityKeyError e).
    + apply emits_bind; [apply emits_dispatchEvent; [by apply Hk|done]|].
      intros ev. destruct (ev_accepted ev); [by apply Hself|apply emits_ret].
    + destruct (err_isTextSecureError e).
      * apply emits_bind; [by apply emits_console|]. intros _. apply emits_ret.
      * apply emits_bind; [by apply emits_dispatchEvent|]. intros _.
        apply emits_throw.
Qed.

Lemma emits_body_gen P (self : Envelope → bool → M World unit)
    envelope reentrant :
  (∀ e, handler_effect envelope e → P e) →
  P (EHandleEnvelope envelope reentrant) →
  (∀ e, reentrant = false → P (EDispatch (keychange_event e))) →
  (∀ e, P (EDispatch (error_event envelope e))) →
  (reentrant = false → emits P (self (set_keyChange true envelope) true)) →
  emits P (handleEnvelope_body ext this self envelope reentrant).
Proof.
  intros Hh Ha Hk He Hself. unfold handleEnvelope_body.
  apply emits_bind; [by apply emits_emit|]. intros _ st.
  unfold bind, lift.
  destruct (select_handler ext this envelope) as [e|handler] eqn:Hsel.
  { apply emits_throw. }
  apply emits_try_catch.
  - eapply emits_mono; [exact Hh|]. by apply (emits_selected_handler ext this).
  - intros e. apply emits_catch_gen; try done.
    + intros l s. by apply (Hh (EConsole l s)).
    + by apply Hk.
Qed.

Lemma emits_handleEnvelope_gen P envelope reentrant :
  (∀ e, handler_effect envelope e → P e) →
  (∀ e, handler_effect (set_keyChange true envelope) e → P e) →
  P (EHandleEnvelope envelope reentrant) →
  P (EHandleEnvelope (set_keyChange true envelope) true) →
  (∀ e, P (EDispatch (keychange_event e))) →
  (∀ e, P (EDispatch (error_event envelope e))) →
  (∀ e, P (EDispatch (error_event (set_keyChange true envelope) e))) →
  emits P (handleEnvelope ext this envelope reentrant).
Proof.
  intros Hh Hh' Ha Ha' Hk He He'. unfold handleEnvelope.
  apply emits_body_gen; try done. intros _.
  apply emits_body_gen; try done.
Qed.

(** A re-entered activation dispatches at most one [message] event. *)
Lemma handleEnvelope_reentrant_messages envelope :
  messages_at_most 1 (handleEnvelope ext this envelope true).
Proof.
  intros st. rewrite handleEnvelope_run. cbn zeta.
  set (st0 := logged (EHandleEnvelope envelope true) st).
  assert (H0 : dispatched_of "message" (st_trace st0)
               = dispatched_of "message" (st_trace st)).
  { unfold dispatched_of. cbn. rewrite filter_app. cbn. by rewrite app_nil_r. }
  destruct (select_handler ext this envelope) as [e|handler] eqn:Hsel.
  { exists []. rewrite app_nil_r. split; [done|cbn; lia]. }
  destruct (messages_at_most_selected_handler _ _ Hsel st0) as (l & Hl & Hlen).
  rewrite H0 in Hl.
  destruct (handler envelope st0) as [[e|u] st1]; cbn [snd] in Hl.
  - exists l. split; [|done]. rewrite <- Hl.
    apply (emits_preserves (is_dispatch_of "message")).
    apply emits_catch_gen; try done.
  - exists l. by split.
Qed.

(** X23.  One envelope, at most one [message] event.  Whatever the
    collaborators and the listeners do, one call of [handleEnvelope]
    dispatches at most one [message] event, the retry after an accepted key
    change included: an identity-key error only comes before any
    delivery. *)
Theorem at_most_one_message_event envelope reentrant st :
  ∃ l,
    dispatched_of "message"
      (st_trace (handleEnvelope ext this envelope reentrant st).2)
      = dispatched_of "message" (st_trace st) ++ l ∧
    (length l ≤ 1)%nat.
Proof.
  destruct reentrant; [apply handleEnvelope_reentrant_messages|].
  rewrite handleEnvelope_run. cbn zeta.
  set (st0 := logged (EHandleEnvelope envelope false) st).
  assert (H0 : dispatched_of "message" (st_trace st0)
               = dispatched_of "message" (st_trace st)).
  { unfold dispatched_of. cbn. rewrite filter_app. cbn. by rewrite app_nil_r. }
  destruct (select_handler ext this envelope) as [e|handler] eqn:Hsel.
  { exists []. rewrite app_nil_r. split; [done|cbn; lia]. }
  destruct (messages_at_most_selected_handler _ _ Hsel st0) as (l & Hl & Hlen).
  pose proof (fails_early_selected_handler ext this _ _ Hsel st0) as Hearly.
  rewrite H0 in Hl.
  destruct (handler envelope st0) as [[e|u] st1] eqn:Hrun; cbn [snd] in Hl;
    [|exists l; by split].
  unfold handleEnvelope_catch.
  destruct (bool_decide (err_name e = "MessageCounterError")).
  { exists l. split; [|done]. rewrite <- Hl.
    unfold bind, console, emit, ret, dispatched_of. cbn.
    rewrite filter_app. cbn. by rewrite app_nil_r. }
  destruct (err_isIncomingIdentityKeyError e) eqn:Hik; cbn [andb negb].
  - assert (Hne : e ≠ EventTarget.not_iterable) by (by intros ->).
    specialize (Hearly e st1 eq_refl Hne).
    assert (H1 : dispatched_of "message" (st_trace st1)
                 = dispatched_of "message" (st_trace st)).
    { rewrite <- H0. by rewrite !dispatched_of_dispatched, Hearly. }
    unfold bind.
    pose proof (dispatchEvent_dispatched_of "message"
      (new_Event "keychange" (KeychangeFields (err_addr e) (err_identityKey e)))
      st1) as Hd.
    rewrite bool_decide_eq_false_2, app_nil_r, H1 in Hd by discriminate.
    destruct (dispatchEvent _ st1) as [[e'|ev] st2]; cbn [snd] in Hd.
    { exists []. rewrite app_nil_r. split; [done|cbn; lia]. }
    destruct (ev_accepted ev).
    + destruct (handleEnvelope_reentrant_messages
                  (set_keyChange true envelope) st2) as (l2 & Hl2 & Hlen2).
      exists l2. by rewrite Hl2, Hd.
    + exists []. rewrite app_nil_r. split; [done|cbn; lia].
  - exists l. split; [|done]. rewrite <- Hl.
    apply (emits_preserves (is_dispatch_of "message")).
    destruct (err_isTextSecureError e).
    + apply emits_bind; [by apply emits_console|]. intros _. apply emits_ret.
    + apply emits_bind; [by apply emits_dispatchEvent|]. intros _.
      apply emits_throw.
Qed.

(** X24.  The [keyChange] of a [message] event follows the activation.
    Every [message] event a re-entered activation dispatches carries the
    [keyChange] of its envelope; every [message] event of a run from a
    first activation carries the [keyChange] the envelope came with or
    [true].  So for an envelope that came without the property, the payload
    is undefined or [true], and never [false]. *)
Theorem message_keyChange_by_activation envelope st :
  (∃ new,
     st_trace (handleEnvelope ext this envelope true st).2 = st_trace st ++ new ∧
     Forall (message_keyChange_in (λ kc, kc = env_keyChange envelope)) new) ∧
  (∃ new,
     st_trace (handleEnvelope ext this envelope false st).2 = st_trace st ++ new ∧
     Forall (message_keyChange_in
               (λ kc, kc = env_keyChange envelope ∨ kc = Some true)) new).
Proof.
  assert (Hh : ∀ env (allowed : option bool → Prop) e,
            allowed (env_keyChange env) →
            handler_effect env e → message_keyChange_in allowed e).
  { intros env allowed [| ev | |] Hallowed; cbn; try done.
    intros [_ H] data Hf. rewrite Hf in H. destruct H as [_ ->]. done. }
  split.
  - unfold handleEnvelope. apply emits_body_gen; try done.
    intros e. by apply Hh.
  - apply emits_handleEnvelope_gen; try done.
    + intros e. apply Hh. by left.
    + intros e. apply Hh. by right.
Qed.

End MessageCount.

(** ** End of session, and the order of the answer *)

Section ScenarioFacts.
Context {World : Type} (ext : Externals World) (this : Identity).
Implicit Types (st : State World) (envelope : Envelope).

Import MessageReceiver.

(** X25.  An end-session transcript.  For a [sent] transcript whose message
    has the end-session flag, [handleSentMessage] closes the sessions of
    every device of the destination of the transcript (not of the source of
    the envelope), fetches no attachment, and then dispatches the [sent]
    event with the message as it came, flags and timer made numeric. *)
Theorem handleSentMessage_end_session sent message envelope deviceIds w1 st :
  sent_message sent = Some message →
  ends_session ext message = true →
  getDeviceIds ext (sent_destination sent) (st_world st) = (inr deviceIds, w1) →
  (∀ deviceId w, deviceId ∈ deviceIds →
     (closeOpenSessionForDevice ext (sent_destination sent) deviceId w).1
       = inr tt) →
  handleSentMessage ext this sent envelope st =
    (dispatchEvent (sent_event envelope sent (normalised message)) ;;; ret tt)
      (mkState (closed_sessions ext (sent_destination sent) deviceIds w1)
               (st_listeners st)
               (st_trace st
                  ++ replicate (length deviceIds)
                       (EConsole "warn" "Closing session for"))).
Proof.
  intros Hmsg Hend Hids Hok. unfold handleSentMessage. rewrite Hmsg.
  fold (ends_session ext message). rewrite Hend.
  destruct (handleEndSession_closes_every_device_helper ext
              (sent_destination sent) deviceIds w1 st Hids)
    as (Hworld & Htrace & Hlisteners & Hret).
  specialize (Hret Hok).
  unfold bind at 1.
  destruct (handleEndSession ext (sent_destination sent) st) as [r st1].
  cbn [fst snd] in *. subst r.
  unfold bind at 1. rewrite processDecrypted_run. cbn zeta. rewrite Hend.
  destruct st1 as [w l t]. cbn in *. by subst.
Qed.

(** X26.  The answer comes last.  For a PUT request for [/api/v1/message]
    whose frame decodes, the trace of [handleRequest] is the trace of
    [handleEnvelope] followed by the one [respond] call: the transport is
    answered after every listener of the envelope's events has returned.
    When the frame does not decode, the [respond] call comes first, before
    the [error] event. *)
Theorem handleRequest_answer_order request st :
  req_verb request = "PUT" → req_path request = "/api/v1/message" →
  let run := handleRequest ext this request st in
  match decodeFrame ext this request with
  | inr envelope =>
      let handled := handleEnvelope ext this envelope false st in
      st_trace run.2 = st_trace handled.2 ++ [ERespond 200 "OK"] ∧
      st_world run.2 = st_world handled.2
  | inl e =>
      ∃ new,
        st_trace run.2
          = st_trace st
              ++ ERespond 500 "Bad encrypted websocket message"
                 :: EConsole "error" "Error handling incoming message:"
                 :: EDispatch (new_Event "error" (ErrorFields e None))
                 :: new ∧
        Forall is_console new
  end.
Proof.
  intros Hverb Hpath run. subst run.
  rewrite handleRequest_accepted by done.
  destruct (decodeFrame ext this request) as [e|envelope].
  - rewrite handleRequest_decode_failure. cbn zeta.
    set (ev := new_Event "error" (ErrorFields e None)).
    set (st2 := logged _ (logged _ st)).
    assert (Hnew : ∃ new, st_trace (dispatchEvent ev st2).2
                          = st_trace st2 ++ EDispatch ev :: new ∧
                          Forall is_console new).
    { unfold EventTarget.dispatchEvent, bind, emit. cbn [fst snd].
      destruct (st_listeners st2) as [m|]; cbn [st_listeners ret throw snd
        st_trace]; [|by exists []].
      destruct (m !! ev_type ev) as [cbs|]; [|by exists []].
      match goal with |- context [EventTarget.call_listeners cbs ev ?s] =>
        destruct (emits_call_listeners is_console cbs ev
                    (λ _ _, I) s) as (new & Ht & Hnew) end.
      exists new. rewrite Ht. cbn [st_trace]. by rewrite <- app_assoc. }
    destruct Hnew as (new & Ht & Hnew). exists new. split; [|done].
    destruct (dispatchEvent ev st2) as [[e'|ev'] st3]; cbn [snd] in *;
      rewrite Ht; unfold st2, logged; cbn; by rewrite <- !app_assoc.
  - cbn zeta. unfold try_finally.
    destruct (handleEnvelope ext this envelope false st) as [r st1].
    by cbn.
Qed.

End ScenarioFacts.

Lemma handleSentMessage_end_session_witness :
  let bye := mkDataMessage None (Some 1) None false None in
  let sent := mkSent "+15550002222" 2000 (Some bye) None in
  MessageReceiver.handleSentMessage Fixture.ext Fixture.this sent Fixture.sync_envelope
                    Fixture.message_only =
    (EventTarget.dispatchEvent (sent_event Fixture.sync_envelope sent (normalised bye))
       ;;; ret tt)
      (mkState (closed_sessions Fixture.ext "+15550002222" [1; 2] false)
               (st_listeners Fixture.message_only)
               (st_trace Fixture.message_only
                  ++ replicate 2 (EConsole "warn" "Closing session for"))).
Proof.
  intros bye sent.
  exact (handleSentMessage_end_session Fixture.ext Fixture.this sent bye
           Fixture.sync_envelope [1; 2] false Fixture.message_only
           eq_refl eq_refl eq_refl (λ _ _ _, eq_refl)).
Defined.

Lemma handleRequest_answer_order_witness :
  let request := Fixture.put_request [x01; x68; x69; x80] in
  let run := MessageReceiver.handleRequest Fixture.ext Fixture.this request Fixture.message_only in
  let handled := MessageReceiver.handleEnvelope Fixture.ext Fixture.this Fixture.data_envelope
                                false Fixture.message_only in
  st_trace run.2 = st_trace handled.2 ++ [ERespond 200 "OK"] ∧
  st_world run.2 = st_world handled.2.
Proof.
  intros request run handled.
  exact (handleRequest_answer_order Fixture.ext Fixture.this request
           Fixture.message_only eq_refl eq_refl).
Defined.

(** ** A message that is delivered *)

Section DeliveryGuarantee.
Context {World : Type} (ext : Externals World) (this : Identity).
Implicit Types (st : State World) (envelope : Envelope).

Import MessageReceiver.


End DeliveryGuarantee.

